(** * gitrec: the catalog synchronisation commands of [command.py]

    A shallow embedding of the three workflows of [command.py]
    ([upsert_repos], [upgrade_items], [upgrade_embedding]) together with the
    properties of the synchronisation pipeline that follow from the code.

    Conventions of the embedding.
    - Python [str] is [string]; [str.lower] and [str.replace] act on the
      ASCII range, which is what repository names, topics and language
      names use.
    - The remote services (registry, catalog, model service) are a [World]:
      the answers they give are data, an answer being either a value or an
      exception.
    - A command is a computation in the monad [M]: it threads the checkpoint
      store and the list of calls made so far, and ends by returning, by
      raising, or by running out of loop fuel ([Diverge]). *)

From Stdlib Require Import Ascii.
From stdpp Require Import base strings list gmap pretty.
From Stdlib Require Import ZArith QArith Lia.

Open Scope Z_scope.

#[local] Set Warnings "-clear-no-such-hyp".

(** ** Python strings *)

Module Py.

Definition lower_char (c : Ascii.ascii) : Ascii.ascii :=
  let n := Ascii.nat_of_ascii c in
  if ((65 <=? n)%nat && (n <=? 90)%nat)%bool
  then Ascii.ascii_of_nat (n + 32) else c.

(** [s.lower()] *)
Fixpoint lower (s : string) : string :=
  match s with
  | EmptyString => EmptyString
  | String c s' => String (lower_char c) (lower s')
  end.

(** [s.replace(a, b)] for one-character [a] and [b] *)
Fixpoint replace (a b : Ascii.ascii) (s : string) : string :=
  match s with
  | EmptyString => EmptyString
  | String c s' =>
      String (if Ascii.eqb c a then b else c) (replace a b s')
  end.

(** [s[:n]] *)
Fixpoint take (n : nat) (s : string) : string :=
  match n, s with
  | S n', String c s' => String c (take n' s')
  | _, _ => EmptyString
  end.

(** [s.startswith(p)] *)
Fixpoint startswith (p s : string) : bool :=
  match p, s with
  | EmptyString, _ => true
  | String a p', String b s' => Ascii.eqb a b && startswith p' s'
  | String _ _, EmptyString => false
  end.

(** [p in s] on two strings: [p] occurs in [s] as a substring *)
Fixpoint contains (s p : string) : bool :=
  startswith p s ||
  match s with
  | EmptyString => false
  | String _ s' => contains s' p
  end.

(** [x in l] on a list of strings *)
Definition mem (x : string) (l : list string) : bool :=
  bool_decide (x ∈ l).

(** [max(d, key=d.get)] over the keys of a non-empty dict, given as its
    items in iteration order: the first key whose value is maximal. *)
Fixpoint max_from (best : string) (w : Z) (d : list (string * Z)) : string :=
  match d with
  | [] => best
  | (k, v) :: d' => if (w <? v)%Z then max_from k v d' else max_from best w d'
  end.

Definition max_key (d : list (string * Z)) : option string :=
  match d with
  | [] => None
  | (k, v) :: d' => Some (max_from k v d')
  end.

(** [datetime]: a naive timestamp with whole seconds *)
Record datetime := {
  year : nat; month : nat; day : nat;
  hour : nat; minute : nat; second : nat
}.

Definition pad2 (n : nat) : string :=
  if (n <? 10)%nat then "0" +:+ pretty n else pretty n.

Definition pad4 (n : nat) : string :=
  (if (n <? 10)%nat then "000"
   else if (n <? 100)%nat then "00"
   else if (n <? 1000)%nat then "0" else "") +:+ pretty n.

(** [str(d)] *)
Definition str (d : datetime) : string :=
  pad4 (year d) +:+ "-" +:+ pad2 (month d) +:+ "-" +:+ pad2 (day d) +:+ " "
  +:+ pad2 (hour d) +:+ ":" +:+ pad2 (minute d) +:+ ":" +:+ pad2 (second d).

(** [d.strftime("%Y-%m-%dT%H:%M:%SZ")] *)
Definition strftime_iso (d : datetime) : string :=
  pad4 (year d) +:+ "-" +:+ pad2 (month d) +:+ "-" +:+ pad2 (day d) +:+ "T"
  +:+ pad2 (hour d) +:+ ":" +:+ pad2 (minute d) +:+ ":" +:+ pad2 (second d)
  +:+ "Z".

End Py.

(** ** Exceptions *)

(** The classes of PyGithub's hierarchy the commands tell apart.
    [UnknownObjectException] and [RateLimitExceededException] are
    subclasses of [GithubException]; [GithubException] here stands for the
    base class and every other subclass. *)
Inductive github_class :=
| UnknownObjectException
| RateLimitExceededException
| GithubException.

(** [e.data]: a JSON object that may hold a ["message"], or something that
    is not an object. *)
Inductive github_data :=
| DataObject (message : option string)
| DataOther.

Record github_error := {
  gh_class : github_class;
  status : Z;                 (* e.status *)
  data : github_data;         (* e.data *)
  gh_str : string             (* str(e) *)
}.

Inductive exn :=
| Github (e : github_error)
| BadRequestError (msg : string)        (* openai *)
| InternalServerError (msg : string)    (* openai *)
| ConnectionError (msg : string)        (* requests.exceptions *)
| AssertionError (msg : string)
| TypeError (msg : string)
| KeyError (msg : string)
| OtherException (msg : string).

(** [str(e)] *)
Definition exn_str (e : exn) : string :=
  match e with
  | Github g => gh_str g
  | BadRequestError m | InternalServerError m | ConnectionError m
  | AssertionError m | TypeError m | KeyError m | OtherException m => m
  end.

(** [isinstance(e, RateLimitExceededException)] *)
Definition is_rate_limit (e : exn) : bool :=
  match e with
  | Github {| gh_class := RateLimitExceededException |} => true
  | _ => false
  end.

(** [isinstance(e, UnknownObjectException)] *)
Definition is_unknown_object (e : exn) : bool :=
  match e with
  | Github {| gh_class := UnknownObjectException |} => true
  | _ => false
  end.

(** The answer of a remote call. *)
Inductive reply (A : Type) :=
| Returns (a : A)
| Raises (e : exn).
Arguments Returns {A} a.
Arguments Raises {A} e.

(** ** Data model *)

(** A repository object of the registry. Its attributes are plain data; its
    methods are further remote calls, recorded with the answer they give. *)
Record Repository := {
  full_name : string;
  stargazers_count : Z;
  description : option string;
  language : option string;
  updated_at : Py.datetime;
  get_topics : reply (list string);
  get_languages : reply (list (string * Z));   (* items, in dict order *)
  get_readme : reply string                    (* decoded README text *)
}.

(** A value stored under a key of an upgraded item's labels. *)
Inductive field :=
| Floats (v : list Q)
| Strings (l : list string).

(** [item["Labels"]]: [None], a flat list of tags (raw item), or a dict
    (upgraded item). *)
Inductive labels :=
| LabelsNone
| LabelsList (tags : list string)
| LabelsDict (d : gmap string field).

Record Item := {
  ItemId : string;
  Timestamp : string;
  Labels : labels;
  Categories : option (list string);
  Comment : option string
}.

(** The keyword arguments of [update_item]; [None] is an argument left out. *)
Record Patch := {
  categories : option (list string);
  new_labels : labels;
  timestamp : option string;
  comment : option string
}.

(** What the catalog does with a patch: a field that is passed replaces the
    stored one, a field left out stays. *)
Definition apply_patch (p : Patch) (it : Item) : Item :=
  {| ItemId := ItemId it;
     Timestamp := default (Timestamp it) (timestamp p);
     Labels := match new_labels p with LabelsNone => Labels it | l => l end;
     Categories := match categories p with None => Categories it | c => c end;
     Comment := match comment p with None => Comment it | c => c end |}.

(** The calls a command makes that change something outside of it. *)
Inductive event :=
| InsertItem (it : Item)                 (* gorse_client.insert_item *)
| UpdateItem (id : string) (p : Patch)   (* gorse_client.update_item *)
| DeleteItem (id : string)               (* gorse_client.delete_item *)
| DCreate (ns : string)                  (* db.dcreate *)
| DAdd (ns key : string)                 (* db.dadd(ns, (key, None)) *)
| Sleep (secs : Z)                       (* time.sleep *)
| Stdout (line : string).                (* print *)

(** ** The world outside *)

Class World := {
  (** constants and helpers of [utils] *)
  MAX_COMMENT_LENGTH : nat;
  generate_categories : list string → list string;
  tldr : string → reply string;
  embedding : string → reply (list Q);
  (** [github_client.get_repo] *)
  get_repo : string → reply Repository;
  (** [github_client.search_repositories(query)], iterated: the repositories
      it yields and, when the iteration breaks off, the exception it raises.
      The first argument counts the searches issued before this one. *)
  search_repositories : nat → string → list Repository * option exn;
  (** [gorse_client.get_items(n, cursor)] *)
  get_items : Z → string → list Item * string
}.

(** ** The command monad *)

(** [db] is the content of [checkpoint.db], a dict of namespaces, each a
    dict whose keys are the checkpointed names (the values are all [None]).
    [calls] lists the calls made so far, oldest first. *)
Record Store := {
  db : gmap string (gset string);
  calls : list event;
  searches : nat
}.

Inductive outcome (A : Type) :=
| Done (a : A)
| Raise (e : exn)
| Diverge.
Arguments Done {A} a.
Arguments Raise {A} e.
Arguments Diverge {A}.

Definition M (A : Type) : Type := Store → outcome A * Store.

Definition run {A} (m : M A) (s : Store) : outcome A * Store := m s.

Definition ret {A} (a : A) : M A := λ s, (Done a, s).

Definition bind {A B} (m : M A) (f : A → M B) : M B := λ s,
  match m s with
  | (Done a, s') => f a s'
  | (Raise e, s') => (Raise e, s')
  | (Diverge, s') => (Diverge, s')
  end.

Declare Scope cmd_scope.
Delimit Scope cmd_scope with cmd.
Bind Scope cmd_scope with M.
Notation "x <- m ;; k" := (bind m (λ x, k))
  (at level 20, m at level 99, k at level 200, only parsing) : cmd_scope.
Notation "m ;; k" := (bind m (λ _, k))
  (at level 100, k at level 200, only parsing, right associativity)
  : cmd_scope.
Open Scope cmd_scope.

Definition pass : M unit := ret ().

Definition raise {A} (e : exn) : M A := λ s, (Raise e, s).

Definition diverge {A} : M A := λ s, (Diverge, s).

Definition record (ev : event) (s : Store) : Store :=
  {| db := db s; calls := calls s ++ [ev]; searches := searches s |}.

Definition call (ev : event) : M unit := λ s, (Done (), record ev s).

Definition print (line : string) : M unit := call (Stdout line).

(** A remote call that returns or raises what the world answers. *)
Definition remote {A} (r : reply A) : M A :=
  match r with
  | Returns a => ret a
  | Raises e => raise e
  end.

(** [try: m except Exception as e: h e] *)
Definition try_except {A} (m : M A) (h : exn → M A) : M A := λ s,
  match m s with
  | (Raise e, s') => h e s'
  | r => r
  end.

(** [for x in l: body x] *)
Fixpoint for_each {A} (body : A → M unit) (l : list A) : M unit :=
  match l with
  | [] => pass
  | x :: l' => body x;; for_each body l'
  end.

(** *** pickledb *)

(** [db.exists(ns)] *)
Definition db_exists (ns : string) : M bool := λ s,
  (Done (bool_decide (is_Some (db s !! ns))), s).

(** [db.dcreate(ns)] *)
Definition db_dcreate (ns : string) : M unit := λ s,
  (Done (), {| db := <[ns := ∅]> (db s);
               calls := calls s ++ [DCreate ns];
               searches := searches s |}).

(** [db.dexists(ns, key)]: [key in self.db[ns]] *)
Definition db_dexists (ns key : string) : M bool := λ s,
  match db s !! ns with
  | Some keys => (Done (bool_decide (key ∈ keys)), s)
  | None => (Raise (KeyError ns), s)
  end.

(** [db.dadd(ns, (key, None))]: [self.db[ns][key] = None] *)
Definition db_dadd (ns key : string) : M unit := λ s,
  match db s !! ns with
  | Some keys =>
      (Done (), {| db := <[ns := {[key]} ∪ keys]> (db s);
                   calls := calls s ++ [DAdd ns key];
                   searches := searches s |})
  | None => (Raise (KeyError ns), s)
  end.

(** [e.data["message"]] *)
Definition data_message (g : github_error) : M string :=
  match data g with
  | DataObject (Some m) => ret m
  | DataObject None => raise (KeyError "message")
  | DataOther => raise (TypeError "string indices must be integers")
  end.

Section Commands.
Context `{W : World}.

(** *** Workflow A: [upsert_repos] *)

Definition search_query (topic language : option string) : string :=
  let query := "stars:>100" in
  let query :=
    match topic with Some t => query +:+ " topic:" +:+ t | None => query end in
  match language with
  | Some l => query +:+ " language:" +:+ l
  | None => query
  end.

(** The iteration over [github_client.search_repositories(query)]. *)
Definition search (query : string) : M (list Repository * option exn) := λ s,
  (Done (search_repositories (searches s) query),
   {| db := db s; calls := calls s; searches := S (searches s) |}).

(** Lines 61-63: the labels of a candidate. *)
Definition repo_labels (lang : option string) (topics : list string)
  : list string :=
  match lang with
  | Some l => if negb (Py.mem l topics) then topics ++ [Py.lower l] else topics
  | None => topics
  end.

(** Lines 73-74. *)
Definition truncate_comment (c : option string) : option string :=
  match c with
  | Some text =>
      if (MAX_COMMENT_LENGTH <? String.length text)%nat
      then Some (Py.take MAX_COMMENT_LENGTH text) else Some text
  | None => None
  end.

(** Lines 65-74. *)
Definition repo_item (repo : Repository) (tags : list string) : Item :=
  {| ItemId := Py.lower (Py.replace "/"%char ":"%char (full_name repo));
     Timestamp := Py.str (updated_at repo);
     Labels := LabelsList tags;
     Categories := Some (generate_categories tags);
     Comment := truncate_comment (description repo) |}.

(** The body of the loop of [search_and_upsert]. *)
Definition upsert_candidate (repo : Repository) : M unit :=
  created <- db_exists "repo";;
  (if created then pass else db_dcreate "repo");;
  seen <- db_dexists "repo" (full_name repo);;
  if seen then pass
  else
    topics <- remote (get_topics repo);;
    let tags := repo_labels (language repo) topics in
    call (InsertItem (repo_item repo tags));;
    db_dadd "repo" (full_name repo).

Definition search_and_upsert (topic language : option string) : M unit :=
  let query := search_query topic language in
  print ("Upsert " +:+ query);;
  found <- search query;;
  let '(repos, broken) := found in
  for_each upsert_candidate repos;;
  match broken with
  | Some e => raise e
  | None => pass
  end.

(** [for topic in item["Labels"]]: a dict is iterated over its keys. *)
Definition item_topics (it : Item) : list string :=
  match Labels it with
  | LabelsNone => []
  | LabelsList tags => tags
  | LabelsDict d => elements (dom d)
  end.

Definition add_topics (topics : gset string) (items : list Item)
  : gset string :=
  foldl (λ acc it, acc ∪ list_to_set (item_topics it)) topics items.

(** Lines 86-94: the topics of the whole catalog. *)
Fixpoint load_topics (fuel : nat) (cursor : string) (topics : gset string)
  : M (gset string) :=
  match fuel with
  | O => diverge
  | S fuel' =>
      let '(items, cursor') := get_items 1000 cursor in
      let topics' := add_topics topics items in
      if bool_decide (cursor' = "") then ret topics'
      else load_topics fuel' cursor' topics'
  end.

(** Lines 100-111: the retry loop around one topic. *)
Fixpoint upsert_topic (fuel : nat) (topic : string) : M unit :=
  match fuel with
  | O => diverge
  | S fuel' =>
      try_except
        (search_and_upsert (Some topic) None;;
         db_dadd "topic" topic)
        (λ e,
           if is_rate_limit e
           then print (exn_str e);; call (Sleep 1800);;
                upsert_topic fuel' topic
           else print (exn_str e);; call (Sleep 60);;
                upsert_topic fuel' topic)
  end.

(** Lines 98-111, over the topics in the order the set yields them. *)
Definition upsert_topics (fuel : nat) (topics : list string) : M unit :=
  for_each
    (λ topic,
       seen <- db_dexists "topic" topic;;
       if seen then pass else upsert_topic fuel topic)
    topics.

Definition upsert_repos (fuel : nat) : M unit :=
  topics <- load_topics fuel "" ∅;;
  created <- db_exists "topic";;
  (if created then pass else db_dcreate "topic");;
  upsert_topics fuel (elements topics).

(** *** Workflow B: [upgrade_items] *)

(** [item["ItemId"].replace(":", "/")] *)
Definition registry_name (item : Item) : string :=
  Py.replace ":"%char "/"%char (ItemId item).

Definition delete_and_log (item : Item) (e : exn) : M unit :=
  call (DeleteItem (ItemId item));;
  print ("DELETE " +:+ ItemId item +:+ " " +:+ exn_str e).

(** Lines 125-140. [Some repo] goes on with the item, [None] is the
    [continue] of the handlers. *)
Definition fetch_repo (item : Item) : M (option Repository) :=
  try_except
    (repo <- remote (get_repo (registry_name item));; ret (Some repo))
    (λ e,
       match e with
       | Github g =>
           match gh_class g with
           | UnknownObjectException =>
               delete_and_log item e;; ret None
           | _ =>
               (if bool_decide (status g = 451)
                then delete_and_log item e
                else if bool_decide (status g ≠ 0)
                then
                  message <- data_message g;;
                  if Py.contains "Repository access blocked" message
                  then delete_and_log item e
                  else print ("FAIL " +:+ ItemId item +:+ " " +:+ exn_str e)
                else print ("FAIL " +:+ ItemId item +:+ " " +:+ exn_str e));;
               ret None
           end
       | _ => raise e
       end).

(** Line 149. *)
Definition too_long (text : option string) : bool :=
  match text with
  | Some d => (MAX_COMMENT_LENGTH <? String.length d)%nat
  | None => false
  end.

(** Lines 156-164, the body of the [try]: the categories and the embedding
    of the description. *)
Definition enrich (repo : Repository) : M (option (list string) * list Q) :=
  languages <- remote (get_languages repo);;
  let language :=
    if (0 <? length languages)%nat
    then (λ k, [Py.lower k]) <$> Py.max_key languages
    else None in
  text <- match description repo with
          | Some d => ret d
          | None =>
              readme <- remote (get_readme repo);;
              summary <- remote (tldr readme);;
              print ("QWEN: " +:+ summary);;
              ret summary
          end;;
  vector <- remote (embedding text);;
  ret (language, vector).

(** Lines 155-180: the [try] with its handlers. *)
Definition try_enrich (item : Item) (repo : Repository)
  : M (option (option (list string) * list Q)) :=
  try_except
    (r <- enrich repo;; ret (Some r))
    (λ e,
       match e with
       | BadRequestError _ | InternalServerError _ | ConnectionError _
       | AssertionError _ =>
           print ("FAIL " +:+ full_name repo +:+ " " +:+ exn_str e);;
           ret None
       | Github {| gh_class := UnknownObjectException |} =>
           delete_and_log item e;; ret None
       | _ => raise e
       end).

(** Lines 183-193. *)
Definition update_from (item : Item) (repo : Repository)
    (language : option (list string)) (vector : list Q) : M unit :=
  topics <- remote (get_topics repo);;
  call (UpdateItem (ItemId item)
          {| categories := language;
             new_labels :=
               LabelsDict (<["topics" := Strings topics]>
                             (<["embedding" := Floats vector]> ∅));
             timestamp := Some (Py.strftime_iso (updated_at repo));
             comment := description repo |});;
  print ("UPDATE " +:+ full_name repo).

(** The body of the loop over a page, lines 123-193. *)
Definition upgrade_item (item : Item) : M unit :=
  match Labels item with
  | LabelsList _ =>
      fetched <- fetch_repo item;;
      match fetched with
      | None => pass
      | Some repo =>
          if (stargazers_count repo <? 100)%Z then
            call (DeleteItem (ItemId item));;
            print ("DELETE " +:+ full_name repo)
          else if too_long (description repo) then
            call (DeleteItem (ItemId item));;
            print ("DELETE " +:+ full_name repo +:+ " with long description")
          else
            enriched <- try_enrich item repo;;
            match enriched with
            | None => pass
            | Some (language, vector) =>
                update_from item repo language vector
            end
      end
  | _ => pass
  end.

Fixpoint upgrade_items_from (fuel : nat) (cursor : string) : M unit :=
  match fuel with
  | O => diverge
  | S fuel' =>
      let '(items, cursor') := get_items 1000 cursor in
      if bool_decide (cursor' = "") then pass
      else for_each upgrade_item items;; upgrade_items_from fuel' cursor'
  end.

Definition upgrade_items (fuel : nat) : M unit := upgrade_items_from fuel "".

(** *** Workflow C: [upgrade_embedding] *)

(** [item['Labels']['embedding'] = vector] *)
Definition set_embedding (l : labels) (vector : list Q) : M labels :=
  match l with
  | LabelsDict d => ret (LabelsDict (<["embedding" := Floats vector]> d))
  | LabelsList _ =>
      raise (TypeError "list indices must be integers or slices, not str")
  | LabelsNone =>
      raise (TypeError "'NoneType' object does not support item assignment")
  end.

(** The body of the loop over a page, lines 205-210. *)
Definition refresh_item (item : Item) : M unit :=
  match Comment item with
  | None => raise (TypeError "object of type 'NoneType' has no len()")
  | Some text =>
      if (0 <? String.length text)%nat then
        vector <- remote (embedding text);;
        updated <- set_embedding (Labels item) vector;;
        call (UpdateItem (ItemId item)
                {| categories := None; new_labels := updated;
                   timestamp := None; comment := None |})
      else pass
  end.

Fixpoint upgrade_embedding_from (fuel : nat) (cursor : string) : M unit :=
  match fuel with
  | O => diverge
  | S fuel' =>
      let '(items, cursor') := get_items 1000 cursor in
      if bool_decide (cursor' = "") then pass
      else for_each refresh_item items;; upgrade_embedding_from fuel' cursor'
  end.

Definition upgrade_embedding (fuel : nat) : M unit :=
  upgrade_embedding_from fuel "".

End Commands.

(** ** Reading the list of calls *)

Definition is_dadd (ns key : string) (ev : event) : bool :=
  match ev with
  | DAdd ns' key' => bool_decide (ns' = ns ∧ key' = key)
  | _ => false
  end.

Definition is_delete (id : string) (ev : event) : bool :=
  match ev with
  | DeleteItem id' => bool_decide (id' = id)
  | _ => false
  end.

Definition is_update (id : string) (ev : event) : bool :=
  match ev with
  | UpdateItem id' _ => bool_decide (id' = id)
  | _ => false
  end.

(** A call that writes to the catalog. *)
Definition is_mutation (ev : event) : bool :=
  match ev with
  | InsertItem _ | UpdateItem _ _ | DeleteItem _ => true
  | _ => false
  end.

(** A call that deletes nothing. *)
Definition keeps (ev : event) : Prop :=
  match ev with
  | DeleteItem _ => False
  | _ => True
  end.

(** A call that leaves the catalog as it is. *)
Definition quiet (ev : event) : Prop := is_mutation ev = false.

(** The failures of the model service the handlers of [upgrade_items] name:
    bad input, service unavailable, network error. *)
Definition is_model_failure (e : exn) : bool :=
  match e with
  | BadRequestError _ | InternalServerError _ | ConnectionError _ => true
  | _ => false
  end.

(** The patches sent for the item [id]. *)
Fixpoint patches (id : string) (tr : list event) : list Patch :=
  match tr with
  | [] => []
  | UpdateItem id' p :: tr' =>
      if decide (id' = id) then p :: patches id tr' else patches id tr'
  | _ :: tr' => patches id tr'
  end.

Definition count (p : event → bool) (tr : list event) : nat :=
  length (List.filter p tr).

(** The keys of the [repo] namespace of the checkpoint store. *)
Definition repo_keys (s : Store) : gset string := default ∅ (db s !! "repo").

(** The keys the calls of [tr] add to the [repo] namespace. *)
Fixpoint added (tr : list event) : gset string :=
  match tr with
  | [] => ∅
  | DAdd ns key :: tr' =>
      if decide (ns = "repo") then {[key]} ∪ added tr' else added tr'
  | _ :: tr' => added tr'
  end.

(** [dedup_trace seen tr]: along [tr], started with the keys [seen] in the
    [repo] namespace, every catalog insert is directly followed by the
    checkpoint add of the key the item was built from, and every key is
    added to the namespace at a point where the namespace does not hold it. *)
Fixpoint dedup_trace (seen : gset string) (tr : list event) : Prop :=
  match tr with
  | [] => True
  | InsertItem it :: tr' =>
      match tr' with
      | DAdd ns key :: _ =>
          ns = "repo" ∧ ItemId it = Py.lower (Py.replace "/"%char ":"%char key)
      | _ => False
      end ∧ dedup_trace seen tr'
  | DAdd ns key :: tr' =>
      if decide (ns = "repo")
      then (key ∉ seen) ∧ dedup_trace ({[key]} ∪ seen) tr'
      else dedup_trace seen tr'
  | _ :: tr' => dedup_trace seen tr'
  end.

(** The store after [db.dcreate("repo")], where the namespace is missing. *)
Definition ensure_repo (s : Store) : Store :=
  match db s !! "repo" with
  | Some _ => s
  | None => {| db := <["repo" := ∅]> (db s);
               calls := calls s ++ [DCreate "repo"];
               searches := searches s |}
  end.

(** The store after the insert of [it] and the checkpoint of [key]. *)
Definition checkpoint (it : Item) (key : string) (s : Store) : Store :=
  {| db := <["repo" := {[key]} ∪ repo_keys s]> (db s);
     calls := calls s ++ [InsertItem it; DAdd "repo" key];
     searches := searches s |}.

(** [respects R m]: whatever [m] does to the store is a step of [R]. *)
Definition respects (R : relation Store) {A} (m : M A) : Prop :=
  ∀ s, R s (run m s).2.

(** The calls made between two stores. *)
Definition calls_since (s s' : Store) (tr : list event) : Prop :=
  calls s' = calls s ++ tr.

(** The store is the same but for calls that satisfy [P]. *)
Definition only_calls (P : event → Prop) (s s' : Store) : Prop :=
  db s' = db s ∧ ∃ tr, calls_since s s' tr ∧ Forall P tr.

(** The checkpoint discipline of Workflow A. *)
Definition dedup_step (s s' : Store) : Prop :=
  ∃ tr, calls_since s s' tr
        ∧ dedup_trace (repo_keys s) tr
        ∧ repo_keys s' = repo_keys s ∪ added tr
        ∧ (is_Some (db s !! "repo") → is_Some (db s' !! "repo")).

(** The namespaces of the checkpoint store only grow, and [topic] is
    added to no namespace. *)
Definition no_topic_add (ns topic : string) (s s' : Store) : Prop :=
  (is_Some (db s !! ns) → is_Some (db s' !! ns))
  ∧ ∃ tr, calls_since s s' tr ∧ count (is_dadd ns topic) tr = 0%nat.

(** ** A sample world

    A small registry, catalog and model service on which the commands can
    be run. *)

Module Sample.

Definition stamp : Py.datetime :=
  {| Py.year := 2024; Py.month := 3; Py.day := 9;
     Py.hour := 7; Py.minute := 5; Py.second := 0 |}.

Definition repository (name : string) (stars : Z) (text lang : option string)
    (topics : list string) (langs : list (string * Z)) : Repository :=
  {| full_name := name; stargazers_count := stars; description := text;
     language := lang; updated_at := stamp;
     get_topics := Returns topics; get_languages := Returns langs;
     get_readme := Returns "A command line tool. Usage: run it." |}.

Fixpoint repeat_str (n : nat) (s : string) : string :=
  match n with
  | O => ""
  | S n' => s +:+ repeat_str n' s
  end.

Definition not_found : exn :=
  Github {| gh_class := UnknownObjectException; status := 404;
            data := DataObject (Some "Not Found"); gh_str := "404 Not Found" |}.

Definition rate_limited : exn :=
  Github {| gh_class := RateLimitExceededException; status := 403;
            data := DataObject (Some "API rate limit exceeded");
            gh_str := "403 API rate limit exceeded" |}.

Definition refused (code : Z) (message : string) : exn :=
  Github {| gh_class := GithubException; status := code;
            data := DataObject (Some message); gh_str := message |}.

(** An error whose body is not JSON: its data has no message. *)
Definition bad_gateway : exn :=
  Github {| gh_class := GithubException; status := 502;
            data := DataObject None; gh_str := "502 Bad Gateway" |}.

Definition popular : Repository :=
  repository "Ann/Tool" 150 (Some "A tool") (Some "Rust")
    ["rust"; "cli"] [("Shell", 10); ("Rust", 900); ("C", 900)].

Definition pythonic : Repository :=
  repository "Bob/Lib" 2000 (Some "A library") (Some "Python")
    ["python"; "ml"] [("Python", 5000)].

Definition faded : Repository :=
  repository "cy/old" 50 (Some "An old project") (Some "C") ["c"] [("C", 70)].

Definition wordy : Repository :=
  repository "di/essay" 300 (Some (repeat_str 201 "words ")) None [] [].

Definition docs_only : Repository :=
  repository "ed/notes" 120 (Some "Notes") None ["notes"] [].

Definition undescribed : Repository :=
  repository "fay/bare" 400 None (Some "Go") ["go"] [("Go", 1)].

(** A repository with neither description nor README. *)
Definition blank : Repository :=
  {| full_name := "gil/blank"; stargazers_count := 500; description := None;
     language := None; updated_at := stamp;
     get_topics := Returns []; get_languages := Returns [];
     get_readme := Raises not_found |}.

Definition offline : Repository :=
  repository "hal/offline" 700 (Some "unreachable") None [] [("Go", 3)].

Definition registry : list (string * reply Repository) :=
  [("ann/tool", Returns popular);
   ("bob/lib", Returns pythonic);
   ("cy/old", Returns faded);
   ("di/essay", Returns wordy);
   ("ed/notes", Returns docs_only);
   ("fay/bare", Returns undescribed);
   ("gil/blank", Returns blank);
   ("hal/offline", Returns offline);
   ("ivy/dmca", Raises (refused 451 "Unavailable for legal reasons"));
   ("jo/banned", Raises (refused 403 "Repository access blocked"));
   ("kim/flaky", Raises (refused 502 "blocked"));
   ("lee/down", Raises (refused 502 "Server Error"));
   ("max/html", Raises bad_gateway)].

Fixpoint find_repo (table : list (string * reply Repository)) (name : string)
  : reply Repository :=
  match table with
  | [] => Raises not_found
  | (n, r) :: table' => if String.eqb n name then r else find_repo table' name
  end.

Definition raw (id : string) (tags : list string) : Item :=
  {| ItemId := id; Timestamp := "2024-01-01 00:00:00";
     Labels := LabelsList tags; Categories := Some []; Comment := Some "" |}.

Definition upgraded (id text : string) : Item :=
  {| ItemId := id; Timestamp := "2024-01-01T00:00:00Z";
     Labels := LabelsDict (<["topics" := Strings ["rust"; "cli"]]>
                             (<["embedding" := Floats [0 # 1]]> ∅));
     Categories := Some ["rust"]; Comment := Some text |}.

Definition world : World :=
  {| MAX_COMMENT_LENGTH := 1000;
     generate_categories :=
       List.filter (λ tag, Py.mem tag ["python"; "rust"; "go"]);
     tldr := λ text, Returns (Py.take 14 text);
     embedding := λ text,
       if String.eqb text "unreachable"
       then Raises (ConnectionError "connection refused")
       else Returns [Z.of_nat (String.length text) # 1; 1 # 2];
     get_repo := find_repo registry;
     search_repositories := λ n query,
       if (n =? 0)%nat then ([popular], Some rate_limited)
       else if String.eqb query "stars:>100 topic:rust"
       then ([popular; pythonic], None)
       else ([pythonic; undescribed], None);
     get_items := λ _ cursor,
       if String.eqb cursor ""
       then ([raw "ann:tool" ["rust"; "cli"]; upgraded "bob:lib" "hello"],
             "page2")
       else ([raw "cy:old" ["c"]; upgraded "ann:tool" "hello"], "") |}.

(** The catalog of a single page. *)
Definition small_world : World :=
  {| MAX_COMMENT_LENGTH := 1000;
     generate_categories := generate_categories (World:=world);
     tldr := tldr (World:=world);
     embedding := embedding (World:=world);
     get_repo := get_repo (World:=world);
     search_repositories := search_repositories (World:=world);
     get_items := λ _ _,
       ([raw "cy:old" ["c"]; upgraded "ann:tool" "hello"], "") |}.

Definition fresh : Store := {| db := ∅; calls := []; searches := 0 |}.

End Sample.

(** ** The single upsert, the pages of the catalog, further readings *)

Section Single.
(** [get_repo_info] is a helper of [utils]; [item_str] is the text [print]
    gives for the item. *)
Variable get_repo_info : string → reply Item.
Variable item_str : Item → string.

(** [upsert_repo], lines 37-41. *)
Definition upsert_repo (item_id : string) : M unit :=
  repo <- remote (get_repo_info item_id);;
  call (InsertItem repo);;
  print (item_str repo).

End Single.

(** [c] occurs in [s]. *)
Fixpoint has_char (c : Ascii.ascii) (s : string) : bool :=
  match s with
  | EmptyString => false
  | String c' s' => Ascii.eqb c' c || has_char c s'
  end.

(** [c] is one of [A] to [Z]. *)
Definition is_upper (c : Ascii.ascii) : bool :=
  let n := Ascii.nat_of_ascii c in ((65 <=? n)%nat && (n <=? 90)%nat)%bool.

(** Every character of [s] passes [p]. *)
Fixpoint all_chars (p : Ascii.ascii → bool) (s : string) : bool :=
  match s with
  | EmptyString => true
  | String c s' => p c && all_chars p s'
  end.

(** A character of a normalised item id: no slash, no capital. *)
Definition id_char (c : Ascii.ascii) : bool :=
  negb (Ascii.eqb c "/"%char) && negb (is_upper c).

Section Pages.
Context `{W : World}.

(** The pages [get_items] hands out from [cursor] on, up to and with the
    page that comes with the empty cursor; [None] when [fuel] calls do not
    reach that page. *)
Fixpoint pages_from (fuel : nat) (cursor : string)
  : option (list (list Item)) :=
  match fuel with
  | O => None
  | S fuel' =>
      let '(items, next) := get_items 1000 cursor in
      if bool_decide (next = "") then Some [items]
      else cons items <$> pages_from fuel' next
  end.

(** The store after the handler of a failed pass: the exception printed,
    then the sleep. *)
Definition cooldown (e : exn) (s : Store) : Store :=
  record (Sleep (if is_rate_limit e then 1800 else 60))
    (record (Stdout (exn_str e)) s).

(** [failed_passes topic n s s']: from [s], [n] passes over [topic] in a
    row raise, each followed by its cooldown, and leave the store [s']. *)
Inductive failed_passes (topic : string) : nat → Store → Store → Prop :=
| failed_none s : failed_passes topic 0 s s
| failed_more n s e s1 s' :
    run (search_and_upsert (Some topic) None) s = (Raise e, s1) →
    failed_passes topic n (cooldown e s1) s' →
    failed_passes topic (S n) s s'.

(** What Workflow A may send: an insert of a raw item whose categories are
    those of its labels, whose id is normalised and whose comment fits; no
    update, no delete. *)
Definition bulk_call (ev : event) : Prop :=
  match ev with
  | InsertItem it =>
      (∃ tags, Labels it = LabelsList tags
               ∧ Categories it = Some (generate_categories tags))
      ∧ all_chars id_char (ItemId it) = true
      ∧ match Comment it with
        | Some text => (String.length text ≤ MAX_COMMENT_LENGTH)%nat
        | None => True
        end
  | UpdateItem _ _ | DeleteItem _ => False
  | _ => True
  end.

End Pages.

(** The keys of the [topic] namespace of the checkpoint store. *)
Definition topic_keys (s : Store) : gset string := default ∅ (db s !! "topic").

(** The calls since [s] all satisfy [P]. *)
Definition calls_satisfy (P : event → Prop) (s s' : Store) : Prop :=
  ∃ tr, calls_since s s' tr ∧ Forall P tr.

(** No namespace of the checkpoint store is lost and none loses a key. *)
Definition store_grows (s s' : Store) : Prop :=
  ∀ ns keys, db s !! ns = Some keys →
             ∃ keys', db s' !! ns = Some keys' ∧ keys ⊆ keys'.

(** What Workflows B and C may do: update, delete, print. *)
Definition revalidation_call (ev : event) : Prop :=
  match ev with
  | UpdateItem _ _ | DeleteItem _ | Stdout _ => True
  | _ => False
  end.

(** An update of the labels alone, to a record with an embedding. *)
Definition refresh_call (ev : event) : Prop :=
  match ev with
  | UpdateItem _ p =>
      categories p = None ∧ timestamp p = None ∧ comment p = None
      ∧ ∃ d, new_labels p = LabelsDict d ∧ is_Some (d !! "embedding")
  | _ => False
  end.

(** A catalog write, if it is one, is a write to the item [id]. *)
Definition writes_to (id : string) (ev : event) : Prop :=
  match ev with
  | InsertItem _ => False
  | UpdateItem id' _ | DeleteItem id' => id' = id
  | _ => True
  end.

(** [n] catalog writes were made between [s] and [s']. *)
Definition tally (s s' : Store) (n : nat) : Prop :=
  ∃ tr, calls_since s s' tr ∧ count is_mutation tr = n.

(** *** More sample worlds *)

Module Corner.

(** A catalog of two pages whose items are all upgraded. *)
Definition settled : World :=
  {| MAX_COMMENT_LENGTH := 1000;
     generate_categories := generate_categories (World:=Sample.world);
     tldr := tldr (World:=Sample.world);
     embedding := embedding (World:=Sample.world);
     get_repo := get_repo (World:=Sample.world);
     search_repositories := search_repositories (World:=Sample.world);
     get_items := λ _ cursor,
       if String.eqb cursor ""
       then ([Sample.upgraded "bob:lib" "hello"], "page2")
       else ([Sample.upgraded "ann:tool" "hi"], "") |}.

(** A registry that cannot be reached. *)
Definition unreachable : World :=
  {| MAX_COMMENT_LENGTH := 1000;
     generate_categories := generate_categories (World:=Sample.world);
     tldr := tldr (World:=Sample.world);
     embedding := embedding (World:=Sample.world);
     get_repo := λ _, Raises (ConnectionError "no route to host");
     search_repositories := λ _ _, ([], Some (ConnectionError "no route to host"));
     get_items := get_items (World:=Sample.world) |}.

(** A registry that answers every lookup with its rate limit, and whose
    searches fail twice before they go through. *)
Definition limited : World :=
  {| MAX_COMMENT_LENGTH := 1000;
     generate_categories := generate_categories (World:=Sample.world);
     tldr := tldr (World:=Sample.world);
     embedding := embedding (World:=Sample.world);
     get_repo := λ _, Raises Sample.rate_limited;
     search_repositories := λ n _,
       if (n =? 0)%nat then ([Sample.popular], Some Sample.rate_limited)
       else if (n =? 1)%nat
       then ([Sample.popular; Sample.pythonic],
             Some (ConnectionError "connection reset"))
       else ([Sample.popular; Sample.pythonic; Sample.undescribed], None);
     get_items := get_items (World:=Sample.world) |}.

(** A catalog without items. *)
Definition empty : World :=
  {| MAX_COMMENT_LENGTH := 1000;
     generate_categories := generate_categories (World:=Sample.world);
     tldr := tldr (World:=Sample.world);
     embedding := embedding (World:=Sample.world);
     get_repo := get_repo (World:=Sample.world);
     search_repositories := search_repositories (World:=Sample.world);
     get_items := λ _ _, ([], "") |}.



(** A checkpoint store with an empty [topic] namespace. *)
Definition started : Store :=
  {| db := {["topic" := ∅]}; calls := []; searches := 0 |}.

End Corner.

(** ** Basic facts about commands *)

Lemma run_ret {A} (a : A) s : run (ret a) s = (Done a, s).
Proof. reflexivity. Qed.

Lemma run_bind {A B} (m : M A) (f : A → M B) s :
  run (bind m f) s =
  match run m s with
  | (Done a, s') => run (f a) s'
  | (Raise e, s') => (Raise e, s')
  | (Diverge, s') => (Diverge, s')
  end.
Proof. reflexivity. Qed.

Lemma run_try_except {A} (m : M A) h s :
  run (try_except m h) s =
  match run m s with
  | (Raise e, s') => run (h e) s'
  | r => r
  end.
Proof. reflexivity. Qed.

Lemma run_for_each_cons {A} (body : A → M unit) x l s :
  run (for_each body (x :: l)) s =
  match run (body x) s with
  | (Done _, s') => run (for_each body l) s'
  | (Raise e, s') => (Raise e, s')
  | (Diverge, s') => (Diverge, s')
  end.
Proof. reflexivity. Qed.

Section Respects.
Context (R : relation Store) `{!PreOrder R}.

Lemma respects_ret {A} (a : A) : respects R (ret a).
Proof. intros s. reflexivity. Qed.

Lemma respects_pass : respects R pass.
Proof. intros s. reflexivity. Qed.

Lemma respects_raise {A} e : respects R (raise (A:=A) e).
Proof. intros s. reflexivity. Qed.

Lemma respects_diverge {A} : respects R (diverge (A:=A)).
Proof. intros s. reflexivity. Qed.

Lemma respects_remote {A} (r : reply A) : respects R (remote r).
Proof. destruct r; [apply respects_ret | apply respects_raise]. Qed.

Lemma respects_bind {A B} (m : M A) (f : A → M B) :
  respects R m → (∀ a, respects R (f a)) → respects R (x <- m;; f x).
Proof.
  intros Hm Hf s. rewrite run_bind.
  specialize (Hm s). destruct (run m s) as [[a|e|] s1]; simpl in *; auto.
  transitivity s1; [done | apply Hf].
Qed.

Lemma respects_try_except {A} (m : M A) h :
  respects R m → (∀ e, respects R (h e)) → respects R (try_except m h).
Proof.
  intros Hm Hh s. rewrite run_try_except.
  specialize (Hm s). destruct (run m s) as [[a|e|] s1]; simpl in *; auto.
  transitivity s1; [done | apply Hh].
Qed.

Lemma respects_for_each {A} (body : A → M unit) l :
  (∀ x, respects R (body x)) → respects R (for_each body l).
Proof.
  intros Hbody. induction l as [|x l IH]; [apply respects_pass|].
  apply (respects_bind (body x) (λ _, for_each body l)); auto.
Qed.

Lemma respects_if {A} (b : bool) (m1 m2 : M A) :
  respects R m1 → respects R m2 → respects R (if b then m1 else m2).
Proof. by destruct b. Qed.

End Respects.

(** ** Paging through the catalog *)

Section Paging.
Context `{W : World}.

(** [upsert_repos] reads the items of a page before it looks at the
    cursor, so the items of the last page are read too. *)
Lemma load_topics_last_page fuel cursor items topics s :
  get_items 1000 cursor = (items, "") →
  run (load_topics (S fuel) cursor topics) s
  = (Done (add_topics topics items), s).
Proof. intros Hpage. unfold run. simpl. by rewrite Hpage. Qed.

(** [upgrade_items] looks at the cursor first: the page that comes with
    the empty cursor is dropped. *)
Lemma upgrade_items_last_page fuel cursor items s :
  get_items 1000 cursor = (items, "") →
  run (upgrade_items_from (S fuel) cursor) s = (Done (), s).
Proof. intros Hpage. unfold run. simpl. by rewrite Hpage. Qed.

Lemma upgrade_items_next_page fuel cursor items next s :
  get_items 1000 cursor = (items, next) → next ≠ "" →
  run (upgrade_items_from (S fuel) cursor) s
  = run (for_each upgrade_item items;; upgrade_items_from fuel next) s.
Proof.
  intros Hpage Hnext. unfold run. simpl. rewrite Hpage.
  by rewrite bool_decide_eq_false_2.
Qed.

Lemma upgrade_embedding_last_page fuel cursor items s :
  get_items 1000 cursor = (items, "") →
  run (upgrade_embedding_from (S fuel) cursor) s = (Done (), s).
Proof. intros Hpage. unfold run. simpl. by rewrite Hpage. Qed.

Lemma upgrade_embedding_next_page fuel cursor items next s :
  get_items 1000 cursor = (items, next) → next ≠ "" →
  run (upgrade_embedding_from (S fuel) cursor) s
  = run (for_each refresh_item items;; upgrade_embedding_from fuel next) s.
Proof.
  intros Hpage Hnext. unfold run. simpl. rewrite Hpage.
  by rewrite bool_decide_eq_false_2.
Qed.

End Paging.

(** C1 (fails on the code). Workflows B and C are to apply their per-item
    logic to every item [get_items] yields, the items of the final page
    included. On the sample catalog of a single page, which holds a raw
    item the registry rates at 50 stars and an upgraded item with the
    comment [hello], both commands return without a single call, although
    the per-item logic deletes the first item and updates the second, and
    although the paging loop of [upsert_repos] does read that page. *)
Theorem final_page_is_skipped :
  let page := get_items (World:=Sample.small_world) 1000 "" in
  page.2 = ""
  ∧ run (upgrade_items (W:=Sample.small_world) 3) Sample.fresh
    = (Done (), Sample.fresh)
  ∧ run (upgrade_embedding (W:=Sample.small_world) 3) Sample.fresh
    = (Done (), Sample.fresh)
  ∧ calls (run (for_each (upgrade_item (W:=Sample.small_world)) page.1)
             Sample.fresh).2
    = [DeleteItem "cy:old"; Stdout "DELETE cy/old"]
  ∧ count (is_update "ann:tool")
      (calls (run (for_each (refresh_item (W:=Sample.small_world)) page.1)
                Sample.fresh).2) = 1%nat
  ∧ (run (load_topics (W:=Sample.small_world) 3 "" ∅) Sample.fresh).1
    = Done (add_topics ∅ page.1).
Proof.
  cbv zeta. split; [reflexivity|].
  split; [eapply (upgrade_items_last_page (W:=Sample.small_world));
          reflexivity|].
  split; [eapply (upgrade_embedding_last_page (W:=Sample.small_world));
          reflexivity|].
  split; [vm_compute; reflexivity|].
  split; [vm_compute; reflexivity|].
  by erewrite (load_topics_last_page (W:=Sample.small_world)).
Qed.

(** ** The classifier of Workflow A *)

(** What lines 61-63 compute: the language is appended, lowercased, when
    it is there and is not one of the tags as the registry spells it. *)
Lemma repo_labels_appends lang topics :
  lang ∉ topics → repo_labels (Some lang) topics = topics ++ [Py.lower lang].
Proof.
  intros Hnot. unfold repo_labels, Py.mem. by rewrite bool_decide_eq_false_2.
Qed.

Lemma repo_labels_keeps lang topics :
  lang ∈ topics → repo_labels (Some lang) topics = topics.
Proof.
  intros Hin. unfold repo_labels, Py.mem. by rewrite bool_decide_eq_true_2.
Qed.

Lemma repo_labels_absent topics : repo_labels None topics = topics.
Proof. reflexivity. Qed.

(** C7 (fails on the code). The lowercased language is to be appended only
    when it is not among the tags yet. For the language [Python] and the
    topics [python], [ml] the test of line 62 looks for [Python], does not
    find it, and the labels end up with [python] twice. *)
Theorem language_label_is_duplicated :
  Py.lower "Python" ∈ ["python"; "ml"]
  ∧ repo_labels (Some "Python") ["python"; "ml"] = ["python"; "ml"; "python"]
  ∧ ¬ NoDup (repo_labels (Some "Python") ["python"; "ml"]).
Proof.
  split; [vm_compute; set_solver|]. split; [reflexivity|].
  intros Hdup. change (NoDup ["python"; "ml"; "python"]) in Hdup.
  apply NoDup_cons in Hdup as [Hhead _]. apply Hhead. set_solver.
Qed.

(** ** Steps that leave the catalog alone *)

#[export] Instance only_calls_preorder P : PreOrder (only_calls P).
Proof.
  split.
  - intros s. split; [done|]. exists []. split; [|done].
    unfold calls_since. by rewrite app_nil_r.
  - intros s1 s2 s3 [Hdb1 (tr1 & Htr1 & HP1)] [Hdb2 (tr2 & Htr2 & HP2)].
    split; [congruence|]. exists (tr1 ++ tr2). split.
    + unfold calls_since in *. rewrite Htr2, Htr1. by rewrite app_assoc.
    + by apply Forall_app.
Qed.

Lemma only_calls_call (P : event → Prop) ev : P ev → respects (only_calls P) (call ev).
Proof.
  intros HP s. split; [done|]. exists [ev]. split; [done|]. by constructor.
Qed.

Section Upgrade.
Context `{W : World}.

(** Enrichment writes nothing to the catalog, whatever its outcome. *)
Lemma enrich_quiet repo : respects (only_calls quiet) (enrich repo).
Proof.
  unfold enrich.
  apply respects_bind; [apply _ | apply respects_remote; apply _ |].
  intros languages.
  apply respects_bind; [apply _ | | ].
  - destruct (description repo).
    + apply respects_ret; apply _.
    + apply respects_bind; [apply _ | apply respects_remote; apply _ |].
      intros readme.
      apply respects_bind; [apply _ | apply respects_remote; apply _ |].
      intros summary.
      apply respects_bind; [apply _ | by apply only_calls_call |].
      intros _. apply respects_ret; apply _.
  - intros text.
    apply respects_bind; [apply _ | apply respects_remote; apply _ |].
    intros vector. apply respects_ret; apply _.
Qed.

Lemma fetch_repo_returns item repo s :
  get_repo (registry_name item) = Returns repo →
  run (fetch_repo item) s = (Done (Some repo), s).
Proof.
  intros Hrepo. unfold fetch_repo.
  rewrite run_try_except, run_bind, Hrepo. reflexivity.
Qed.

Lemma fetch_repo_not_found item e s :
  get_repo (registry_name item) = Raises e →
  is_unknown_object e = true →
  run (fetch_repo item) s
  = (Done None,
     record (Stdout ("DELETE " +:+ ItemId item +:+ " " +:+ exn_str e))
       (record (DeleteItem (ItemId item)) s)).
Proof.
  intros Hrepo Hclass. unfold fetch_repo.
  rewrite run_try_except, run_bind, Hrepo.
  destruct e as [[[] ? ? ?]| | | | | | |]; try discriminate. reflexivity.
Qed.

(** Lines 131-140 on an error that is not a not-found, has a status other
    than 451 and a message: the item goes when the status is truthy and
    the message occurs somewhere in the text [Repository access blocked],
    as [in] between two strings has it. *)
Lemma fetch_repo_refused item g message s :
  get_repo (registry_name item) = Raises (Github g) →
  gh_class g ≠ UnknownObjectException →
  status g ≠ 451 →
  data g = DataObject (Some message) →
  run (fetch_repo item) s
  = (Done None,
     if bool_decide (status g ≠ 0)
        && Py.contains "Repository access blocked" message
     then record
            (Stdout ("DELETE " +:+ ItemId item +:+ " " +:+ exn_str (Github g)))
            (record (DeleteItem (ItemId item)) s)
     else record
            (Stdout ("FAIL " +:+ ItemId item +:+ " " +:+ exn_str (Github g)))
            s).
Proof.
  intros Hrepo Hclass Hstatus Hdata. unfold fetch_repo.
  rewrite run_try_except, run_bind, Hrepo.
  destruct g as [cls code dt str]; simpl in Hclass, Hstatus, Hdata; subst dt.
  destruct cls; [done| |];
    cbv [run remote raise bind ret data_message data status gh_class];
    rewrite (bool_decide_eq_false_2 _ Hstatus);
    destruct (bool_decide (code ≠ 0));
    destruct (Py.contains "Repository access blocked" message); reflexivity.
Qed.

Lemma calls_since_two s ev1 ev2 :
  calls_since s (record ev2 (record ev1 s)) [ev1; ev2].
Proof. unfold calls_since. simpl. by rewrite <- app_assoc. Qed.

Lemma count_delete_then_print id line :
  count (is_delete id) [DeleteItem id; Stdout line] = 1%nat
  ∧ count (is_update id) [DeleteItem id; Stdout line] = 0%nat
  ∧ count is_mutation [DeleteItem id; Stdout line] = 1%nat.
Proof.
  unfold count. simpl. by rewrite bool_decide_eq_true_2.
Qed.

(** The three ways of lines 127-152 to drop an item: each is one
    [delete_item] followed by one line of log. *)
Lemma upgrade_item_deletes item tags s :
  Labels item = LabelsList tags →
  (∃ e, get_repo (registry_name item) = Raises e
        ∧ is_unknown_object e = true)
  ∨ (∃ repo, get_repo (registry_name item) = Returns repo
        ∧ (stargazers_count repo < 100
           ∨ ∃ d, description repo = Some d
                  ∧ (MAX_COMMENT_LENGTH < String.length d)%nat)) →
  ∃ line,
    run (upgrade_item item) s
    = (Done (), record (Stdout line) (record (DeleteItem (ItemId item)) s)).
Proof.
  intros Hraw Hcase. unfold upgrade_item. rewrite Hraw, run_bind.
  destruct Hcase as [(e & Hrepo & Hclass) | (repo & Hrepo & Hcase)].
  - rewrite (fetch_repo_not_found _ _ _ Hrepo Hclass). by eexists.
  - rewrite (fetch_repo_returns _ _ _ Hrepo).
    destruct (stargazers_count repo <? 100) eqn:Hstars.
    + by eexists.
    + destruct Hcase as [Hlt | (d & Hd & Hlen)]; [apply Z.ltb_ge in Hstars; lia|].
      assert (Hlong : too_long (description repo) = true).
      { rewrite Hd. simpl. by apply Nat.ltb_lt. }
      rewrite Hlong. by eexists.
Qed.

(** The deletions of the per-item step: for a raw item whose registry
    record has fewer than 100 stars, or whose lookup answers not-found, or
    whose source description is longer than [MAX_COMMENT_LENGTH], the
    step, where the page loop applies it, calls [delete_item] on the item
    exactly once, calls [update_item] not at all, and makes no other
    catalog write. *)
Theorem deletion_correctness item tags s :
  Labels item = LabelsList tags →
  (∃ e, get_repo (registry_name item) = Raises e
        ∧ is_unknown_object e = true)
  ∨ (∃ repo, get_repo (registry_name item) = Returns repo
        ∧ (stargazers_count repo < 100
           ∨ ∃ d, description repo = Some d
                  ∧ (MAX_COMMENT_LENGTH < String.length d)%nat)) →
  ∃ s' tr,
    run (upgrade_item item) s = (Done (), s')
    ∧ calls_since s s' tr
    ∧ count (is_delete (ItemId item)) tr = 1%nat
    ∧ count (is_update (ItemId item)) tr = 0%nat
    ∧ count is_mutation tr = 1%nat.
Proof.
  intros Hraw Hcase.
  destruct (upgrade_item_deletes item tags s Hraw Hcase) as [line Hrun].
  eexists _, [DeleteItem (ItemId item); Stdout line].
  split; [exact Hrun|]. split; [apply calls_since_two|].
  apply count_delete_then_print.
Qed.

(** C5. Disposition of a failed enrichment in Workflow B, for a raw item
    that got as far as the enrichment: nothing was written to the catalog
    while it ran; on bad input, service unavailable or network error the
    step logs a [FAIL] line and the loop goes on with the next item; on
    an object that is not found any more the item is deleted. *)
Theorem enrichment_failure item tags repo e s s1 rest :
  Labels item = LabelsList tags →
  get_repo (registry_name item) = Returns repo →
  100 ≤ stargazers_count repo →
  too_long (description repo) = false →
  run (enrich repo) s = (Raise e, s1) →
  only_calls quiet s s1
  ∧ (is_model_failure e = true →
     let s2 :=
       record (Stdout ("FAIL " +:+ full_name repo +:+ " " +:+ exn_str e)) s1
     in
     run (upgrade_item item) s = (Done (), s2)
     ∧ only_calls quiet s s2
     ∧ run (for_each upgrade_item (item :: rest)) s
       = run (for_each upgrade_item rest) s2)
  ∧ (is_unknown_object e = true →
     run (upgrade_item item) s
     = (Done (),
        record (Stdout ("DELETE " +:+ ItemId item +:+ " " +:+ exn_str e))
          (record (DeleteItem (ItemId item)) s1))).
Proof.
  intros Hraw Hrepo Hstars Hshort Hfail.
  assert (Hquiet : only_calls quiet s s1).
  { pose proof (enrich_quiet repo s) as Hq. by rewrite Hfail in Hq. }
  assert (Hstep : ∀ s2,
    run (try_except (r <- enrich repo;; ret (Some r))
           (λ e,
              match e with
              | BadRequestError _ | InternalServerError _
              | ConnectionError _ | AssertionError _ =>
                  print ("FAIL " +:+ full_name repo +:+ " " +:+ exn_str e);;
                  ret None
              | Github {| gh_class := UnknownObjectException |} =>
                  delete_and_log item e;; ret None
              | _ => raise e
              end)) s = (Done None, s2) →
    run (upgrade_item item) s = (Done (), s2)).
  { intros s2 Htry. unfold upgrade_item.
    rewrite Hraw, run_bind, (fetch_repo_returns _ _ _ Hrepo).
    apply Z.ltb_ge in Hstars. rewrite Hstars, Hshort, run_bind.
    unfold try_enrich. by rewrite Htry. }
  split; [done|]. split.
  - intros Hkind. cbv zeta.
    assert (Hrun : run (upgrade_item item) s
      = (Done (), record
           (Stdout ("FAIL " +:+ full_name repo +:+ " " +:+ exn_str e)) s1)).
    { apply Hstep. rewrite run_try_except, run_bind, Hfail.
      by destruct e as [[[] ? ? ?]| | | | | | |]. }
    split; [done|]. split.
    + transitivity s1; [done|].
      by apply (only_calls_call quiet (Stdout _)).
    + by rewrite run_for_each_cons, Hrun.
  - intros Hgone. apply Hstep.
    rewrite run_try_except, run_bind, Hfail.
    by destruct e as [[[] ? ? ?]| | | | | | |].
Qed.

(** [max(d, key=d.get)] picks a key of maximal weight. *)
Lemma max_from_spec d best w :
  ∃ w0, ((Py.max_from best w d = best ∧ w0 = w)
         ∨ (Py.max_from best w d, w0) ∈ d)
        ∧ w ≤ w0
        ∧ ∀ k' w', (k', w') ∈ d → w' ≤ w0.
Proof.
  revert best w. induction d as [|[k v] d IH]; intros best w; simpl.
  - exists w. split; [by left|]. split; [lia|]. intros k' w' Hin.
    by apply elem_of_nil in Hin.
  - destruct (w <? v) eqn:Hlt.
    + apply Z.ltb_lt in Hlt.
      destruct (IH k v) as (w0 & Hpick & Hge & Hmax).
      exists w0. split; [|split; [lia|]].
      * right. destruct Hpick as [[-> ->]|Hin]; [left|by right].
      * intros k' w' Hin. apply elem_of_cons in Hin as [[= -> ->]|Hin]; eauto.
    + apply Z.ltb_ge in Hlt.
      destruct (IH best w) as (w0 & Hpick & Hge & Hmax).
      exists w0. split; [|split; [lia|]].
      * destruct Hpick as [[Hb ->]|Hin]; [by left|by right; right].
      * intros k' w' Hin. apply elem_of_cons in Hin as [[= -> ->]|Hin];
          [lia|eauto].
Qed.

Lemma max_key_spec d k :
  Py.max_key d = Some k →
  ∃ w, (k, w) ∈ d ∧ ∀ k' w', (k', w') ∈ d → w' ≤ w.
Proof.
  destruct d as [|[k0 v0] d]; [done|]. simpl. intros [= <-].
  destruct (max_from_spec d k0 v0) as (w0 & Hpick & Hge & Hmax).
  exists w0. split.
  - destruct Hpick as [[-> ->]|Hin]; [left|by right].
  - intros k' w' Hin. apply elem_of_cons in Hin as [[= -> ->]|Hin]; eauto.
Qed.

(** What a successful enrichment has computed. *)
Lemma enrich_done repo language vector s s1 :
  run (enrich repo) s = (Done (language, vector), s1) →
  (∃ langs, get_languages repo = Returns langs
     ∧ match langs with
       | [] => language = None
       | _ => ∃ k w, (k, w) ∈ langs
                     ∧ (∀ k' w', (k', w') ∈ langs → w' ≤ w)
                     ∧ language = Some [Py.lower k]
       end)
  ∧ (∃ text, embedding text = Returns vector
       ∧ ∀ d, description repo = Some d → text = d).
Proof.
  unfold enrich. rewrite run_bind.
  destruct (get_languages repo) as [langs|e] eqn:Hlangs; [|done].
  change (run (remote (Returns langs)) s) with (Done langs, s).
  cbv beta iota zeta. rewrite run_bind.
  set (language' := if (0 <? length langs)%nat
                    then (λ k, [Py.lower k]) <$> Py.max_key langs else None).
  intros Hrun.
  assert (Hvec : ∃ text, embedding text = Returns vector
                   ∧ (∀ d, description repo = Some d → text = d)
                   ∧ language = language').
  { destruct (description repo) as [d|] eqn:Hd.
    - change (run (ret d) s) with (Done d, s) in Hrun. cbv beta iota in Hrun.
      rewrite run_bind in Hrun.
      destruct (embedding d) as [v|e] eqn:Hv; [|done].
      injection Hrun as -> -> _. exists d. split; [done|].
      split; [by intros ? [= ->]|done].
    - rewrite run_bind in Hrun.
      destruct (get_readme repo) as [readme|e]; [|done].
      change (run (remote (Returns readme)) s) with (Done readme, s) in Hrun.
      cbv beta iota in Hrun. rewrite run_bind in Hrun.
      destruct (tldr readme) as [summary|e]; [|done].
      change (run (remote (Returns summary)) s) with (Done summary, s) in Hrun.
      cbv beta iota in Hrun. rewrite run_bind in Hrun.
      change (run (print ("QWEN: " +:+ summary)) s)
        with (Done (), record (Stdout ("QWEN: " +:+ summary)) s) in Hrun.
      cbv beta iota in Hrun.
      change (run (ret summary) ?s') with (Done summary, s') in Hrun.
      cbv beta iota in Hrun. rewrite run_bind in Hrun.
      destruct (embedding summary) as [v|e] eqn:Hv; [|done].
      injection Hrun as -> -> _. exists summary. by split. }
  destruct Hvec as (text & Hv & Htext & ->). split; [|by exists text].
  exists langs. split; [done|]. subst language'.
  destruct langs as [|[k0 v0] langs']; [done|].
  change (0 <? length ((k0, v0) :: langs'))%nat with true. cbv iota.
  destruct (Py.max_key ((k0, v0) :: langs')) as [k|] eqn:Hmax; [|done].
  destruct (max_key_spec _ _ Hmax) as (w & Hin & Hle).
  by exists k, w.
Qed.

(** C8, amended. When the re-fetch of a raw item, its enrichment and the
    call for its topics succeed, the step sends one update: categories is
    the list of the lowercased language of largest byte-weight when the
    language breakdown is not empty and is left out when it is empty;
    labels is the record of the embedding and the registry topics;
    timestamp is the registry's [updated_at]; comment is the source
    description as it is. *)
Theorem upgrade_postcondition item tags repo language vector topics s s1 :
  Labels item = LabelsList tags →
  get_repo (registry_name item) = Returns repo →
  100 ≤ stargazers_count repo →
  too_long (description repo) = false →
  run (enrich repo) s = (Done (language, vector), s1) →
  get_topics repo = Returns topics →
  run (upgrade_item item) s
  = (Done (),
     record (Stdout ("UPDATE " +:+ full_name repo))
       (record
          (UpdateItem (ItemId item)
             {| categories := language;
                new_labels :=
                  LabelsDict (<["topics" := Strings topics]>
                                (<["embedding" := Floats vector]> ∅));
                timestamp := Some (Py.strftime_iso (updated_at repo));
                comment := description repo |})
          s1))
  ∧ (∃ langs, get_languages repo = Returns langs
       ∧ match langs with
         | [] => language = None
         | _ => ∃ k w, (k, w) ∈ langs
                       ∧ (∀ k' w', (k', w') ∈ langs → w' ≤ w)
                       ∧ language = Some [Py.lower k]
         end)
  ∧ (∃ text, embedding text = Returns vector
       ∧ ∀ d, description repo = Some d → text = d).
Proof.
  intros Hraw Hrepo Hstars Hshort Hrich Htopics.
  split; [|by apply (enrich_done repo language vector s s1)].
  unfold upgrade_item.
  rewrite Hraw, run_bind, (fetch_repo_returns _ _ _ Hrepo).
  apply Z.ltb_ge in Hstars. rewrite Hstars, Hshort, run_bind.
  unfold try_enrich. rewrite run_try_except, run_bind, Hrich.
  change (run (ret (Some (language, vector))) s1)
    with (Done (Some (language, vector)), s1).
  cbv beta iota. unfold update_from. rewrite run_bind, Htopics.
  reflexivity.
Qed.

End Upgrade.

(** C6 (fails on the code). A registry error is to delete the item only on
    status 451 or on the message [Repository access blocked] itself, and
    any other registry error is only to be logged. Line 135 tests the
    message with [in] against a parenthesised string, not a tuple, so any
    part of that text passes: an error 502 with the message [blocked]
    deletes the item. And an error whose data holds no message makes the
    handler itself raise, which ends the command. *)
Theorem part_of_message_deletes :
  get_repo (World:=Sample.world) "kim/flaky"
  = Raises (Sample.refused 502 "blocked")
  ∧ run (upgrade_item (W:=Sample.world) (Sample.raw "kim:flaky" []))
        Sample.fresh
    = (Done (),
       {| db := ∅;
          calls := [DeleteItem "kim:flaky"; Stdout "DELETE kim:flaky blocked"];
          searches := 0 |})
  ∧ get_repo (World:=Sample.world) "max/html" = Raises Sample.bad_gateway
  ∧ run (upgrade_item (W:=Sample.world) (Sample.raw "max:html" []))
        Sample.fresh
    = (Raise (KeyError "message"), Sample.fresh).
Proof. repeat split; vm_compute; reflexivity. Qed.

(** C8 as stated fails: the repository [ed/notes] has an empty language
    breakdown; its re-fetch and enrichment succeed, and the update that is
    sent carries no categories. *)
Lemma upgrade_without_languages :
  get_repo (World:=Sample.world) "ed/notes" = Returns Sample.docs_only
  ∧ get_languages Sample.docs_only = Returns []
  ∧ (run (enrich (W:=Sample.world) Sample.docs_only) Sample.fresh).1
    = Done (None, [5 # 1; 1 # 2])
  ∧ categories <$> patches "ed:notes"
      (calls (run (upgrade_item (W:=Sample.world)
                     (Sample.raw "ed:notes" ["notes"])) Sample.fresh).2)
    = [None].
Proof. repeat split; vm_compute; reflexivity. Qed.

(** ** Workflow C *)

Section Refresh.
Context `{W : World}.

Lemma nonempty_length text : text ≠ "" → (0 <? String.length text)%nat = true.
Proof. by destruct text. Qed.

Lemma refresh_item_keeps item : respects (only_calls keeps) (refresh_item item).
Proof.
  unfold refresh_item. destruct (Comment item) as [text|].
  - apply respects_if; [|apply respects_pass; apply _].
    apply respects_bind; [apply _ | apply respects_remote; apply _ |].
    intros vector. apply respects_bind; [apply _ | |].
    + unfold set_embedding. destruct (Labels item).
      * apply respects_raise; apply _.
      * apply respects_raise; apply _.
      * apply respects_ret; apply _.
    + intros updated. by apply only_calls_call.
  - apply respects_raise; apply _.
Qed.

(** The whole of Workflow C deletes nothing. *)
Lemma upgrade_embedding_keeps fuel cursor :
  respects (only_calls keeps) (upgrade_embedding_from fuel cursor).
Proof.
  revert cursor. induction fuel as [|fuel IH]; intros cursor; simpl.
  - apply respects_diverge; apply _.
  - destruct (get_items 1000 cursor) as [items next].
    apply respects_if; [apply respects_pass; apply _|].
    apply respects_bind; [apply _ | | by intros _].
    apply respects_for_each; [apply _|]. apply refresh_item_keeps.
Qed.

(** The frame of the per-item step of Workflow C: for an item with a non-empty
    comment and structured labels, the step computes the embedding of
    the comment and sends one update that carries only the labels, the
    stored record with its [embedding] entry replaced: every other entry
    of the labels, the topics among them, and the categories, comment
    and timestamp of the item stay as they are. The workflow deletes
    nothing. *)
Theorem refresh_frame item text d vector s :
  Comment item = Some text →
  text ≠ "" →
  Labels item = LabelsDict d →
  embedding text = Returns vector →
  let d' := <["embedding" := Floats vector]> d in
  let p := {| categories := None; new_labels := LabelsDict d';
              timestamp := None; comment := None |} in
  run (refresh_item item) s
  = (Done (), record (UpdateItem (ItemId item) p) s)
  ∧ d' !! "embedding" = Some (Floats vector)
  ∧ (∀ key, key ≠ "embedding" → d' !! key = d !! key)
  ∧ Labels (apply_patch p item) = LabelsDict d'
  ∧ Categories (apply_patch p item) = Categories item
  ∧ Comment (apply_patch p item) = Comment item
  ∧ Timestamp (apply_patch p item) = Timestamp item
  ∧ ∀ fuel s0,
      ∃ tr, calls_since s0 (run (upgrade_embedding fuel) s0).2 tr
            ∧ Forall keeps tr.
Proof.
  intros Htext Hne Hdict Hvec. cbv zeta.
  split; [|split; [|split; [|split; [|split; [|split; [|split]]]]]];
    try reflexivity.
  - unfold refresh_item. rewrite Htext, (nonempty_length _ Hne).
    rewrite run_bind, Hvec, Hdict. reflexivity.
  - apply lookup_insert_eq.
  - intros key Hkey. by apply lookup_insert_ne.
  - intros fuel s0.
    by destruct (upgrade_embedding_keeps fuel "" s0) as [_ Htr].
Qed.

(** C10, amended. What Workflow C takes for granted: an item without a
    comment makes the step raise a type error; so does an item whose
    non-empty comment has been embedded and whose labels are not a
    structured record. The exception is caught nowhere: it ends the loop
    over the page and the command. An item whose comment is the empty
    string is skipped. *)
Theorem refresh_precondition item s :
  (Comment item = None →
   ∃ msg, run (refresh_item item) s = (Raise (TypeError msg), s))
  ∧ (∀ text vector,
       Comment item = Some text → text ≠ "" →
       embedding text = Returns vector →
       (∀ d, Labels item ≠ LabelsDict d) →
       ∃ msg, run (refresh_item item) s = (Raise (TypeError msg), s))
  ∧ (Comment item = Some "" → run (refresh_item item) s = (Done (), s))
  ∧ (∀ e s' rest,
       run (refresh_item item) s = (Raise e, s') →
       run (for_each refresh_item (item :: rest)) s = (Raise e, s')
       ∧ ∀ fuel cursor next,
           get_items 1000 cursor = (item :: rest, next) → next ≠ "" →
           run (upgrade_embedding_from (S fuel) cursor) s = (Raise e, s')).
Proof.
  split; [|split; [|split]].
  - intros Hnone. unfold refresh_item. rewrite Hnone. by eexists.
  - intros text vector Htext Hne Hvec Hshape. unfold refresh_item.
    rewrite Htext, (nonempty_length _ Hne), run_bind, Hvec.
    destruct (Labels item) as [|tags|d] eqn:Hlabels; [by eexists..|].
    by destruct (Hshape d).
  - intros Hempty. unfold refresh_item. by rewrite Hempty.
  - intros e s' rest Hraise.
    assert (Hpage : run (for_each refresh_item (item :: rest)) s = (Raise e, s')).
    { by rewrite run_for_each_cons, Hraise. }
    split; [done|]. intros fuel cursor next Hget Hnext.
    rewrite (upgrade_embedding_next_page _ _ _ _ _ Hget Hnext).
    by rewrite run_bind, Hpage.
Qed.

End Refresh.

(** C10 as stated fails: a raw item whose comment is the empty string is
    skipped by the step of Workflow C, without any exception. *)
Lemma raw_item_without_text_is_skipped :
  Labels (Sample.raw "cy:old" ["c"]) = LabelsList ["c"]
  ∧ Comment (Sample.raw "cy:old" ["c"]) = Some ""
  ∧ run (refresh_item (W:=Sample.world) (Sample.raw "cy:old" ["c"]))
        Sample.fresh
    = (Done (), Sample.fresh).
Proof. repeat split. Qed.

(** ** Workflow A: the checkpoint discipline *)

Lemma count_cons p ev tr :
  count p (ev :: tr) = ((if p ev then 1 else 0) + count p tr)%nat.
Proof. unfold count. simpl. by destruct (p ev). Qed.

Lemma count_app p tr1 tr2 : count p (tr1 ++ tr2) = (count p tr1 + count p tr2)%nat.
Proof. unfold count. by rewrite List.filter_app, length_app. Qed.

Lemma added_app tr1 tr2 : added (tr1 ++ tr2) = added tr1 ∪ added tr2.
Proof.
  induction tr1 as [|ev tr1 IH]; simpl; [set_solver|].
  destruct ev; try done. case_decide; [|done]. rewrite IH. set_solver.
Qed.

Lemma dedup_trace_app seen tr1 tr2 :
  dedup_trace seen tr1 →
  dedup_trace (seen ∪ added tr1) tr2 →
  dedup_trace seen (tr1 ++ tr2).
Proof.
  revert seen. induction tr1 as [|ev tr1 IH]; intros seen H1 H2.
  - simpl in *. by replace (seen ∪ ∅) with seen in H2 by set_solver.
  - destruct ev; simpl in *; try (by apply IH).
    + destruct H1 as [Hnext H1]. split; [|by apply IH].
      destruct tr1 as [|[] tr1]; done.
    + case_decide.
      * destruct H1 as [Hfresh H1]. split; [done|]. apply IH; [done|].
        by replace ({[key]} ∪ seen ∪ added tr1)
          with (seen ∪ ({[key]} ∪ added tr1)) by set_solver.
      * by apply IH.
Qed.

(** Along a trace that keeps the discipline, a key is added to the [repo]
    namespace at most once, and not at all when it was there before. *)
Lemma dedup_trace_counts seen tr key :
  dedup_trace seen tr →
  (key ∈ seen → count (is_dadd "repo" key) tr = 0%nat)
  ∧ (count (is_dadd "repo" key) tr ≤ 1)%nat.
Proof.
  revert seen. induction tr as [|ev tr IH]; intros seen Htr.
  { unfold count. simpl. split; [done|lia]. }
  rewrite count_cons.
  destruct ev as [it|id p|id|ns|ns k|secs|line]; simpl in *;
    try (by apply IH).
  - destruct Htr as [_ Htr]. by apply IH.
  - case_decide as Hns.
    + subst ns. destruct Htr as [Hfresh Htr].
      destruct (IH _ Htr) as [Hzero Hone].
      case_bool_decide as Hkey.
      * destruct Hkey as [_ ->]. rewrite Hzero by set_solver. split; [done|lia].
      * split; [|done]. intros Hin. apply Hzero. set_solver.
    + rewrite bool_decide_eq_false_2 by (intros [? _]; done).
      by apply IH.
Qed.

#[export] Instance dedup_step_preorder : PreOrder dedup_step.
Proof.
  split.
  - intros s. exists []. unfold calls_since. rewrite app_nil_r. simpl.
    split; [done|]. split; [done|]. split; [set_solver|done].
  - intros s1 s2 s3 (tr1 & Hc1 & Ht1 & Hk1 & Hn1) (tr2 & Hc2 & Ht2 & Hk2 & Hn2).
    exists (tr1 ++ tr2). unfold calls_since in *.
    split; [by rewrite Hc2, Hc1, app_assoc|].
    split; [apply dedup_trace_app; [done|by rewrite <- Hk1]|].
    split; [rewrite Hk2, Hk1, added_app; set_solver|auto].
Qed.

#[export] Instance no_topic_add_preorder ns topic : PreOrder (no_topic_add ns topic).
Proof.
  split.
  - intros s. split; [done|]. exists []. unfold calls_since.
    by rewrite app_nil_r.
  - intros s1 s2 s3 [Hn1 (tr1 & Hc1 & Hz1)] [Hn2 (tr2 & Hc2 & Hz2)].
    split; [auto|]. exists (tr1 ++ tr2). unfold calls_since in *.
    split; [by rewrite Hc2, Hc1, app_assoc|].
    rewrite count_app. lia.
Qed.

Section Checkpoints.
Context `{W : World}.

Lemma repo_keys_ensure s : repo_keys (ensure_repo s) = repo_keys s.
Proof.
  unfold ensure_repo, repo_keys.
  destruct (db s !! "repo") eqn:Hns; simpl; [by rewrite Hns|].
  by rewrite lookup_insert_eq.
Qed.

(** The body of the loop of [search_and_upsert], case by case: the
    namespace is created when it is missing; a candidate whose name is
    checkpointed is passed over; any other candidate is inserted and
    checkpointed, unless the call for its topics raises. *)
Lemma upsert_candidate_run repo s :
  run (upsert_candidate repo) s =
  if bool_decide (full_name repo ∈ repo_keys s) then (Done (), ensure_repo s)
  else match get_topics repo with
       | Raises e => (Raise e, ensure_repo s)
       | Returns topics =>
           (Done (),
            checkpoint (repo_item repo (repo_labels (language repo) topics))
              (full_name repo) (ensure_repo s))
       end.
Proof.
  unfold checkpoint. rewrite repo_keys_ensure.
  unfold ensure_repo, repo_keys. destruct s as [d c n].
  cbv [run upsert_candidate bind db_exists db_dexists pass ret db calls
       searches].
  destruct (d !! "repo") as [keys|] eqn:Hns; simpl.
  - rewrite Hns. case_bool_decide; [done|].
    destruct (get_topics repo); simpl; [|done].
    cbv [db_dadd record db calls searches]. rewrite Hns.
    by rewrite <- app_assoc.
  - cbv [db_dcreate db calls searches]. rewrite lookup_insert_eq.
    rewrite !bool_decide_eq_false_2 by set_solver.
    destruct (get_topics repo); simpl; [|done].
    cbv [db_dadd record db calls searches]. rewrite lookup_insert_eq.
    by rewrite <- app_assoc.
Qed.

(** A checkpointed candidate costs no call at all. *)
Lemma upsert_candidate_seen repo s :
  full_name repo ∈ repo_keys s →
  run (upsert_candidate repo) s = (Done (), s).
Proof.
  intros Hseen. rewrite upsert_candidate_run, bool_decide_eq_true_2 by done.
  unfold ensure_repo. unfold repo_keys in Hseen.
  destruct (db s !! "repo"); [done|]. by apply elem_of_empty in Hseen.
Qed.

Lemma ensure_repo_dedup s : dedup_step s (ensure_repo s).
Proof.
  unfold ensure_repo. destruct (db s !! "repo") eqn:Hns; [reflexivity|].
  exists [DCreate "repo"]. split; [done|]. split; [done|].
  unfold repo_keys. simpl. rewrite lookup_insert_eq, Hns. simpl.
  split; [set_solver|]. intros _. by eexists.
Qed.

Lemma checkpoint_dedup it key s :
  ItemId it = Py.lower (Py.replace "/"%char ":"%char key) →
  key ∉ repo_keys s →
  dedup_step s (checkpoint it key s).
Proof.
  intros Hid Hfresh. exists [InsertItem it; DAdd "repo" key].
  split; [done|]. split.
  - simpl. done.
  - unfold repo_keys at 1. simpl. rewrite lookup_insert_eq. simpl.
    split; [set_solver|]. intros _. by eexists.
Qed.

Lemma upsert_candidate_dedup repo : respects dedup_step (upsert_candidate repo).
Proof.
  intros s. rewrite upsert_candidate_run.
  case_bool_decide as Hseen; [apply ensure_repo_dedup|].
  destruct (get_topics repo) as [topics|e]; [|apply ensure_repo_dedup].
  simpl. transitivity (ensure_repo s); [apply ensure_repo_dedup|].
  apply checkpoint_dedup; [done|]. by rewrite repo_keys_ensure.
Qed.

Lemma ensure_repo_no_topic topic s : no_topic_add "topic" topic s (ensure_repo s).
Proof.
  unfold ensure_repo. destruct (db s !! "repo") eqn:Hns; [reflexivity|].
  split; [by simpl; rewrite lookup_insert_ne|]. by exists [DCreate "repo"].
Qed.

Lemma checkpoint_no_topic topic it key s :
  no_topic_add "topic" topic s (checkpoint it key s).
Proof.
  split; [by simpl; rewrite lookup_insert_ne|].
  exists [InsertItem it; DAdd "repo" key]. split; [done|].
  reflexivity.
Qed.

Lemma upsert_candidate_no_topic topic repo :
  respects (no_topic_add "topic" topic) (upsert_candidate repo).
Proof.
  intros s. rewrite upsert_candidate_run.
  case_bool_decide as Hseen; [apply ensure_repo_no_topic|].
  destruct (get_topics repo) as [topics|e]; [|apply ensure_repo_no_topic].
  simpl. transitivity (ensure_repo s); [apply ensure_repo_no_topic|].
  apply checkpoint_no_topic.
Qed.

(** What [search_and_upsert] needs of a relation to respect it. *)
Lemma search_and_upsert_respects (R : relation Store) `{!PreOrder R} topic lang :
  (∀ line, respects R (print line)) →
  (∀ query, respects R (search query)) →
  (∀ repo, respects R (upsert_candidate repo)) →
  respects R (search_and_upsert topic lang).
Proof.
  intros Hprint Hsearch Hbody. unfold search_and_upsert.
  apply respects_bind; [done|apply Hprint|]. intros _.
  apply respects_bind; [done|apply Hsearch|]. intros [repos broken].
  apply respects_bind; [done|by apply respects_for_each|]. intros _.
  destruct broken; [by apply respects_raise|by apply respects_pass].
Qed.

Lemma search_dedup query : respects dedup_step (search query).
Proof.
  intros s. exists []. unfold calls_since. simpl. rewrite app_nil_r.
  split; [done|]. split; [done|]. split; [|done].
  unfold repo_keys. simpl. set_solver.
Qed.

Lemma search_no_topic topic query :
  respects (no_topic_add "topic" topic) (search query).
Proof.
  intros s. split; [done|]. exists []. unfold calls_since. simpl.
  by rewrite app_nil_r.
Qed.

Lemma call_dedup ev :
  (∀ it, ev ≠ InsertItem it) → (∀ ns key, ev ≠ DAdd ns key) →
  respects dedup_step (call ev).
Proof.
  intros Hins Hadd s. exists [ev]. split; [done|].
  unfold repo_keys. simpl.
  destruct ev; try (split; [done|split; [set_solver|done]]).
  - by destruct (Hins it).
  - by destruct (Hadd ns key).
Qed.

Lemma call_no_topic topic ev :
  (∀ ns key, ev ≠ DAdd ns key) →
  respects (no_topic_add "topic" topic) (call ev).
Proof.
  intros Hadd s. split; [done|]. exists [ev]. split; [done|].
  unfold count. simpl. destruct ev; try done. by destruct (Hadd ns key).
Qed.

Lemma search_and_upsert_dedup topic lang :
  respects dedup_step (search_and_upsert topic lang).
Proof.
  apply search_and_upsert_respects; [apply _| | |].
  - intros line. by apply call_dedup.
  - apply search_dedup.
  - apply upsert_candidate_dedup.
Qed.

Lemma search_and_upsert_no_topic key topic lang :
  respects (no_topic_add "topic" key) (search_and_upsert topic lang).
Proof.
  apply search_and_upsert_respects; [apply _| | |].
  - intros line. by apply call_no_topic.
  - apply search_no_topic.
  - apply upsert_candidate_no_topic.
Qed.

(** *** The retry loop *)

Lemma db_dadd_missing ns key s :
  db s !! ns = None → run (db_dadd ns key) s = (Raise (KeyError ns), s).
Proof. intros Hns. unfold run, db_dadd. by rewrite Hns. Qed.

Lemma upsert_topic_raise fuel topic e s s1 :
  run (search_and_upsert (Some topic) None) s = (Raise e, s1) →
  run (upsert_topic (S fuel) topic) s
  = run (upsert_topic fuel topic)
      (record (Sleep (if is_rate_limit e then 1800 else 60))
         (record (Stdout (exn_str e)) s1)).
Proof.
  intros Hrun. cbn [upsert_topic].
  rewrite run_try_except, run_bind, Hrun. by destruct (is_rate_limit e).
Qed.

Lemma upsert_topic_done fuel topic keys s s1 :
  run (search_and_upsert (Some topic) None) s = (Done (), s1) →
  db s1 !! "topic" = Some keys →
  run (upsert_topic (S fuel) topic) s
  = (Done (),
     {| db := <["topic" := {[topic]} ∪ keys]> (db s1);
        calls := calls s1 ++ [DAdd "topic" topic];
        searches := searches s1 |}).
Proof.
  intros Hrun Hns. cbn [upsert_topic].
  rewrite run_try_except, run_bind, Hrun. unfold run, db_dadd.
  by rewrite Hns.
Qed.

(** However the loop ends, the topic was added to its namespace by the
    last call only, right after a pass that returned. *)
Lemma upsert_topic_spec fuel topic s :
  match run (upsert_topic fuel topic) s with
  | (Done _, s') =>
      ∃ s0 s1, no_topic_add "topic" topic s s0
               ∧ run (search_and_upsert (Some topic) None) s0 = (Done (), s1)
               ∧ no_topic_add "topic" topic s0 s1
               ∧ run (db_dadd "topic" topic) s1 = (Done (), s')
  | (_, s') => no_topic_add "topic" topic s s'
  end.
Proof.
  revert s. induction fuel as [|fuel IH]; intros s.
  { change (no_topic_add "topic" topic s s). reflexivity. }
  pose proof (search_and_upsert_no_topic topic (Some topic) None s) as Hpass.
  assert (Hretry : ∀ e s1,
    no_topic_add "topic" topic s s1 →
    match run (upsert_topic fuel topic)
            (record (Sleep (if is_rate_limit e then 1800 else 60))
               (record (Stdout (exn_str e)) s1)) with
    | (Done _, s') =>
        ∃ s0 s2, no_topic_add "topic" topic s s0
                 ∧ run (search_and_upsert (Some topic) None) s0 = (Done (), s2)
                 ∧ no_topic_add "topic" topic s0 s2
                 ∧ run (db_dadd "topic" topic) s2 = (Done (), s')
    | (_, s') => no_topic_add "topic" topic s s'
    end).
  { intros e s1 Hs1.
    set (s2 := record (Sleep _) (record (Stdout (exn_str e)) s1)).
    assert (Hs2 : no_topic_add "topic" topic s s2).
    { transitivity s1; [done|].
      transitivity (record (Stdout (exn_str e)) s1).
      - by apply (call_no_topic topic (Stdout (exn_str e))).
      - by apply (call_no_topic topic (Sleep _)). }
    specialize (IH s2).
    destruct (run (upsert_topic fuel topic) s2) as [[[]|e'|] s'].
    - destruct IH as (s0 & s3 & H0 & Hrun & H3 & Hadd).
      exists s0, s3. split; [by transitivity s2|done].
    - by transitivity s2.
    - by transitivity s2. }
  destruct (run (search_and_upsert (Some topic) None) s) as [[[]|e|] s1]
    eqn:Hrun; simpl in Hpass.
  - destruct (db s1 !! "topic") as [keys|] eqn:Hns.
    + rewrite (upsert_topic_done _ _ _ _ _ Hrun Hns).
      exists s, s1. split; [reflexivity|]. split; [done|]. split; [done|].
      unfold run, db_dadd. by rewrite Hns.
    + cbn [upsert_topic]. rewrite run_try_except, run_bind, Hrun.
      rewrite (db_dadd_missing _ _ _ Hns).
      apply (Hretry (KeyError "topic") s1 Hpass).
  - rewrite (upsert_topic_raise _ _ _ _ _ Hrun). by apply Hretry.
  - cbn [upsert_topic]. by rewrite run_try_except, run_bind, Hrun.
Qed.

(** C3. Retry policy of Workflow A: when a pass over a topic raises the
    rate-limit error the loop prints it, sleeps 1800 seconds and runs the
    topic again; on any other exception it prints it, sleeps 60 seconds
    and runs the topic again; when a pass returns, the topic is added to
    the [topic] namespace and the loop ends; and a loop that has ended
    made that add as its last call, after a pass that returned, and no
    add of the topic before. *)
Theorem retry_policy fuel topic s :
  (∀ e s1,
     run (search_and_upsert (Some topic) None) s = (Raise e, s1) →
     is_rate_limit e = true →
     run (upsert_topic (S fuel) topic) s
     = run (upsert_topic fuel topic)
         (record (Sleep 1800) (record (Stdout (exn_str e)) s1)))
  ∧ (∀ e s1,
       run (search_and_upsert (Some topic) None) s = (Raise e, s1) →
       is_rate_limit e = false →
       run (upsert_topic (S fuel) topic) s
       = run (upsert_topic fuel topic)
           (record (Sleep 60) (record (Stdout (exn_str e)) s1)))
  ∧ (∀ s1,
       run (search_and_upsert (Some topic) None) s = (Done (), s1) →
       is_Some (db s !! "topic") →
       ∃ s', run (upsert_topic (S fuel) topic) s = (Done (), s')
             ∧ calls_since s1 s' [DAdd "topic" topic]
             ∧ topic ∈ default ∅ (db s' !! "topic"))
  ∧ (∀ r s',
       run (upsert_topic fuel topic) s = (r, s') →
       match r with
       | Done _ =>
           ∃ s0 s1 tr,
             run (search_and_upsert (Some topic) None) s0 = (Done (), s1)
             ∧ calls_since s s1 tr
             ∧ count (is_dadd "topic" topic) tr = 0%nat
             ∧ calls_since s1 s' [DAdd "topic" topic]
       | _ =>
           ∃ tr, calls_since s s' tr
                 ∧ count (is_dadd "topic" topic) tr = 0%nat
       end).
Proof.
  split; [|split; [|split]].
  - intros e s1 Hrun Hkind.
    by rewrite (upsert_topic_raise _ _ _ _ _ Hrun), Hkind.
  - intros e s1 Hrun Hkind.
    by rewrite (upsert_topic_raise _ _ _ _ _ Hrun), Hkind.
  - intros s1 Hrun Hns.
    pose proof (search_and_upsert_no_topic topic (Some topic) None s) as Hpass.
    rewrite Hrun in Hpass. destruct Hpass as [Hkeep _].
    destruct (Hkeep Hns) as [keys Hkeys].
    eexists. split; [by apply upsert_topic_done|].
    split; [done|]. simpl. rewrite lookup_insert_eq. simpl. set_solver.
  - intros r s' Hrun. pose proof (upsert_topic_spec fuel topic s) as Hspec.
    rewrite Hrun in Hspec. destruct r as [[]|e|].
    + destruct Hspec as (s0 & s1 & H0 & Hpass & H1 & Hadd).
      assert (Hs1 : no_topic_add "topic" topic s s1) by (by transitivity s0).
      destruct Hs1 as [_ (tr & Htr & Hcount)].
      exists s0, s1, tr. split; [done|]. split; [done|]. split; [done|].
      unfold run, db_dadd in Hadd.
      destruct (db s1 !! "topic"); [|done]. by injection Hadd as <-.
    + by destruct Hspec as [_ Htr].
    + by destruct Hspec as [_ Htr].
Qed.

(** *** The whole command *)

Lemma db_dadd_topic_dedup topic : respects dedup_step (db_dadd "topic" topic).
Proof.
  intros s. unfold run, db_dadd.
  destruct (db s !! "topic") as [keys|]; simpl; [|reflexivity].
  exists [DAdd "topic" topic]. split; [reflexivity|]. split; [by simpl|].
  unfold repo_keys. simpl. rewrite lookup_insert_ne by done.
  split; [set_solver|done].
Qed.

Lemma db_dcreate_topic_dedup : respects dedup_step (db_dcreate "topic").
Proof.
  intros s. exists [DCreate "topic"]. split; [reflexivity|]. split; [by simpl|].
  unfold repo_keys. simpl. rewrite lookup_insert_ne by done.
  split; [set_solver|done].
Qed.

Lemma upsert_topic_dedup fuel topic : respects dedup_step (upsert_topic fuel topic).
Proof.
  induction fuel as [|fuel IH]; [apply respects_diverge; apply _|].
  cbn [upsert_topic]. apply respects_try_except; [apply _| |].
  - apply respects_bind; [apply _|apply search_and_upsert_dedup|].
    intros _. apply db_dadd_topic_dedup.
  - intros e. apply respects_if;
      (apply respects_bind; [apply _|by apply call_dedup|]; intros _;
       apply respects_bind; [apply _|by apply call_dedup|]; by intros _).
Qed.

Lemma db_dexists_pure ns key s : (run (db_dexists ns key) s).2 = s.
Proof. unfold run, db_dexists. by destruct (db s !! ns). Qed.

Lemma upsert_topics_dedup fuel topics : respects dedup_step (upsert_topics fuel topics).
Proof.
  apply respects_for_each; [apply _|]. intros topic.
  apply respects_bind; [apply _| |].
  { intros s. rewrite db_dexists_pure. reflexivity. }
  intros seen.
  apply respects_if; [apply respects_pass; apply _|apply upsert_topic_dedup].
Qed.

(** Reading the catalog changes nothing. *)
Lemma load_topics_pure fuel cursor topics s :
  (run (load_topics fuel cursor topics) s).2 = s.
Proof.
  revert cursor topics. induction fuel as [|fuel IH]; intros cursor topics;
    [done|].
  unfold run in *. simpl. destruct (get_items 1000 cursor) as [items next].
  case_bool_decide; [done|apply IH].
Qed.

Lemma upsert_repos_dedup fuel : respects dedup_step (upsert_repos fuel).
Proof.
  unfold upsert_repos.
  apply respects_bind; [apply _| |].
  { intros s. rewrite load_topics_pure. reflexivity. }
  intros topics. apply respects_bind; [apply _| |].
  { intros s. reflexivity. }
  intros created. apply respects_bind; [apply _| |].
  { apply respects_if; [apply respects_pass; apply _|].
    apply db_dcreate_topic_dedup. }
  intros _. apply upsert_topics_dedup.
Qed.

(** C2. Dedup invariant of Workflow A: over a run of [upsert_repos] that
    returns, every key is added to the [repo] namespace at most once, a
    key that was in the namespace at the start is not added at all,
    every catalog insert is that of a candidate whose key is not in the
    namespace at that point, and a candidate whose key is in the
    namespace when its turn comes is passed over without any call. *)
Theorem dedup_invariant fuel s s' :
  run (upsert_repos fuel) s = (Done (), s') →
  ∃ tr,
    calls_since s s' tr
    ∧ dedup_trace (repo_keys s) tr
    ∧ (∀ key, (count (is_dadd "repo" key) tr ≤ 1)%nat)
    ∧ (∀ key, key ∈ repo_keys s → count (is_dadd "repo" key) tr = 0%nat)
    ∧ (∀ repo st,
         full_name repo ∈ repo_keys st →
         run (upsert_candidate repo) st = (Done (), st)).
Proof.
  intros Hrun. pose proof (upsert_repos_dedup fuel s) as Hstep.
  rewrite Hrun in Hstep. destruct Hstep as (tr & Hcalls & Htrace & _).
  exists tr. split; [done|]. split; [done|].
  split; [|split].
  - intros key. by apply (dedup_trace_counts (repo_keys s)).
  - intros key. by apply (dedup_trace_counts (repo_keys s)).
  - apply upsert_candidate_seen.
Qed.

End Checkpoints.

(** ** The theorems at work on the sample world *)

(** C2 on a full run over the sample world, from an empty checkpoint store:
    the first search is rate limited after one candidate, and the later
    searches yield that candidate again. *)
Lemma dedup_invariant_witness :
  ∃ tr,
    calls_since Sample.fresh
      (run (upsert_repos (W:=Sample.world) 5) Sample.fresh).2 tr
    ∧ dedup_trace (repo_keys Sample.fresh) tr
    ∧ (∀ key, (count (is_dadd "repo" key) tr ≤ 1)%nat)
    ∧ (∀ key, key ∈ repo_keys Sample.fresh →
              count (is_dadd "repo" key) tr = 0%nat)
    ∧ (∀ repo st,
         full_name repo ∈ repo_keys st →
         run (upsert_candidate (W:=Sample.world) repo) st = (Done (), st)).
Proof.
  apply (dedup_invariant (W:=Sample.world) 5 Sample.fresh).
  vm_compute. reflexivity.
Defined.

(** C3 on the topic [rust]: the first pass is rate limited, the loop sleeps
    half an hour and starts the topic again. *)
Lemma retry_policy_witness :
  let s := {| db := {["topic" := ∅]}; calls := []; searches := 0 |} in
  let s1 := (run (search_and_upsert (W:=Sample.world) (Some "rust") None) s).2 in
  run (upsert_topic (W:=Sample.world) 2 "rust") s
  = run (upsert_topic (W:=Sample.world) 1 "rust")
      (record (Sleep 1800) (record (Stdout "403 API rate limit exceeded") s1)).
Proof.
  cbv zeta.
  apply (proj1 (retry_policy (W:=Sample.world) 1 "rust"
                  {| db := {["topic" := ∅]}; calls := []; searches := 0 |})
           Sample.rate_limited).
  - vm_compute. reflexivity.
  - reflexivity.
Defined.

(** The deletions of the step, on the item whose source description has
    1206 characters. *)
Lemma deletion_correctness_witness :
  ∃ s' tr,
    run (upgrade_item (W:=Sample.world) (Sample.raw "di:essay" []))
      Sample.fresh = (Done (), s')
    ∧ calls_since Sample.fresh s' tr
    ∧ count (is_delete "di:essay") tr = 1%nat
    ∧ count (is_update "di:essay") tr = 0%nat
    ∧ count is_mutation tr = 1%nat.
Proof.
  apply (deletion_correctness (W:=Sample.world) (Sample.raw "di:essay" []) []);
    [reflexivity|].
  right. exists Sample.wordy. split; [reflexivity|].
  right. eexists. split; [reflexivity|].
  apply Nat.ltb_lt. vm_compute. reflexivity.
Defined.

(** C5 on the item whose description cannot be embedded for a network
    error. *)
Lemma enrichment_failure_witness :
  run (upgrade_item (W:=Sample.world) (Sample.raw "hal:offline" []))
    Sample.fresh
  = (Done (),
     record (Stdout "FAIL hal/offline connection refused") Sample.fresh).
Proof.
  apply (proj1 (proj2 (enrichment_failure (W:=Sample.world)
           (Sample.raw "hal:offline" []) [] Sample.offline
           (ConnectionError "connection refused") Sample.fresh Sample.fresh []
           eq_refl eq_refl ltac:(done) eq_refl
           ltac:(vm_compute; reflexivity)))).
  reflexivity.
Defined.

(** C8, amended, on the item of a repository with three languages, two of
    them of the largest weight. *)
Lemma upgrade_postcondition_witness :
  categories <$> patches "ann:tool"
    (calls (run (upgrade_item (W:=Sample.world)
                   (Sample.raw "ann:tool" ["rust"; "cli"])) Sample.fresh).2)
  = [Some ["rust"]].
Proof.
  rewrite (proj1 (upgrade_postcondition (W:=Sample.world)
             (Sample.raw "ann:tool" ["rust"; "cli"]) ["rust"; "cli"]
             Sample.popular (Some ["rust"]) [6 # 1; 1 # 2] ["rust"; "cli"]
             Sample.fresh Sample.fresh
             eq_refl eq_refl ltac:(done) eq_refl
             ltac:(vm_compute; reflexivity) eq_refl)).
  reflexivity.
Defined.

(** The frame of the step, on the upgraded item with the comment [hello]. *)
Lemma refresh_frame_witness :
  let item := Sample.upgraded "bob:lib" "hello" in
  let d' := <["embedding" := Floats [5 # 1; 1 # 2]]>
              (<["topics" := Strings ["rust"; "cli"]]>
                 (<["embedding" := Floats [0 # 1]]> ∅)) in
  let p := {| categories := None; new_labels := LabelsDict d';
              timestamp := None; comment := None |} in
  run (refresh_item (W:=Sample.world) item) Sample.fresh
  = (Done (), record (UpdateItem "bob:lib" p) Sample.fresh)
  ∧ d' !! "topics" = Some (Strings ["rust"; "cli"])
  ∧ Categories (apply_patch p item) = Some ["rust"].
Proof.
  cbv zeta.
  destruct (refresh_frame (W:=Sample.world) (Sample.upgraded "bob:lib" "hello")
              "hello"
              (<["topics" := Strings ["rust"; "cli"]]>
                 (<["embedding" := Floats [0 # 1]]> ∅))
              [5 # 1; 1 # 2] Sample.fresh
              eq_refl ltac:(done) eq_refl eq_refl)
    as (Hrun & _ & Hframe & _ & Hcat & _).
  split; [exact Hrun|]. split.
  - rewrite (Hframe "topics") by done. reflexivity.
  - exact Hcat.
Defined.

(** C10, amended, on an item without comment. *)
Lemma refresh_precondition_witness :
  ∃ msg,
    run (refresh_item (W:=Sample.world)
           {| ItemId := "zed:none"; Timestamp := ""; Labels := LabelsNone;
              Categories := None; Comment := None |}) Sample.fresh
    = (Raise (TypeError msg), Sample.fresh).
Proof.
  apply (proj1 (refresh_precondition (W:=Sample.world)
                  {| ItemId := "zed:none"; Timestamp := "";
                     Labels := LabelsNone; Categories := None;
                     Comment := None |} Sample.fresh)).
  reflexivity.
Defined.

(** ** Item ids, comments and queries *)

Lemma take_length n text :
  String.length (Py.take n text) = Nat.min n (String.length text).
Proof.
  revert text. induction n as [|n IH]; intros [|c text]; simpl; auto.
Qed.

Lemma startswith_take n text : Py.startswith (Py.take n text) text = true.
Proof.
  revert text. induction n as [|n IH]; intros [|c text]; simpl; auto.
  by rewrite Ascii.eqb_refl, IH.
Qed.

Lemma take_all n text : (String.length text ≤ n)%nat → Py.take n text = text.
Proof.
  revert text. induction n as [|n IH]; intros [|c text]; simpl; auto; [lia|].
  intros Hlen. rewrite IH; [done|lia].
Qed.

Lemma id_char_normalised c :
  id_char (Py.lower_char (if Ascii.eqb c "/" then ":"%char else c)) = true.
Proof. by destruct c as [[] [] [] [] [] [] [] []]. Qed.

Lemma lookup_char_back c :
  Ascii.eqb c ":" = false →
  (let c' := Py.lower_char (if Ascii.eqb c "/" then ":"%char else c) in
   if Ascii.eqb c' ":" then "/"%char else c') = Py.lower_char c.
Proof. by destruct c as [[] [] [] [] [] [] [] []]. Qed.

Lemma normalised_id name :
  all_chars id_char (Py.lower (Py.replace "/" ":" name)) = true.
Proof.
  induction name as [|c name IH]; [done|].
  cbn [Py.replace Py.lower all_chars]. by rewrite id_char_normalised, IH.
Qed.

Lemma lookup_name_back name :
  has_char ":" name = false →
  Py.replace ":" "/" (Py.lower (Py.replace "/" ":" name)) = Py.lower name.
Proof.
  induction name as [|c name IH]; [done|].
  cbn [has_char Py.replace Py.lower]. intros Hno.
  apply orb_false_iff in Hno as [Hc Hname].
  f_equal; [by apply lookup_char_back|by apply IH].
Qed.

Section Items.
Context `{W : World}.

(** X1. The id Workflow A gives an item and the name Workflow B looks up
    for it: for a repository whose full name holds no colon, the name
    looked up is the full name in lower case. *)
Theorem item_id_round_trip repo tags :
  has_char ":" (full_name repo) = false →
  registry_name (repo_item repo tags) = Py.lower (full_name repo).
Proof. intros Hno. unfold registry_name, repo_item. simpl. by apply lookup_name_back. Qed.

(** X2. The id of an inserted item holds no slash and no capital letter,
    whatever the full name of the repository. *)
Theorem item_id_normalised repo tags :
  all_chars id_char (ItemId (repo_item repo tags)) = true.
Proof. apply normalised_id. Qed.

(** X3. The comment Workflow A stores: an absent description stays absent;
    a description is cut to its first [MAX_COMMENT_LENGTH] characters, is
    kept whole when it is that short, and is not changed by a second cut. *)
Theorem truncate_comment_bounds text :
  truncate_comment None = None
  ∧ ∃ text',
      truncate_comment (Some text) = Some text'
      ∧ String.length text' = Nat.min MAX_COMMENT_LENGTH (String.length text)
      ∧ Py.startswith text' text = true
      ∧ ((String.length text ≤ MAX_COMMENT_LENGTH)%nat → text' = text)
      ∧ truncate_comment (Some text') = Some text'.
Proof.
  split; [done|]. unfold truncate_comment.
  destruct (MAX_COMMENT_LENGTH <? String.length text)%nat eqn:Hlong.
  - apply Nat.ltb_lt in Hlong. eexists. split; [done|].
    rewrite take_length. split; [done|]. split; [apply startswith_take|].
    split; [lia|].
    destruct (MAX_COMMENT_LENGTH <? _)%nat eqn:Hagain; [|done].
    apply Nat.ltb_lt in Hagain. lia.
  - exists text. split; [done|]. apply Nat.ltb_ge in Hlong.
    split; [lia|]. split; [|split; [done|]].
    + rewrite <- (take_all (String.length text) text) at 1 by done.
      apply startswith_take.
    + by rewrite (proj2 (Nat.ltb_ge _ _) Hlong).
Qed.

End Items.

(** X1 on the sample repository [Ann/Tool]. *)
Lemma item_id_round_trip_witness :
  registry_name (repo_item (W:=Sample.world) Sample.popular ["rust"])
  = "ann/tool".
Proof.
  apply (item_id_round_trip (W:=Sample.world) Sample.popular ["rust"]).
  reflexivity.
Defined.

(** ** The pages a command gets to see *)

Lemma run_for_each_app {A} (body : A → M unit) l1 l2 s :
  run (for_each body (l1 ++ l2)) s
  = run (for_each body l1;; for_each body l2) s.
Proof.
  revert s. induction l1 as [|x l1 IH]; intros s; [done|].
  rewrite <- app_comm_cons, run_for_each_cons, run_bind, run_for_each_cons.
  destruct (run (body x) s) as [[[]|e|] s1]; [|done..].
  by rewrite IH, run_bind.
Qed.

Lemma add_topics_app topics items1 items2 :
  add_topics topics (items1 ++ items2)
  = add_topics (add_topics topics items1) items2.
Proof. unfold add_topics. apply foldl_app. Qed.

Lemma elem_of_add_topics tag topics items :
  tag ∈ add_topics topics items
  ↔ tag ∈ topics ∨ ∃ item, item ∈ items ∧ tag ∈ item_topics item.
Proof.
  revert topics. induction items as [|item items IH]; intros topics.
  - simpl. split; [by left|]. intros [?|(item & Hin & _)]; [done|].
    by apply elem_of_nil in Hin.
  - change (add_topics topics (item :: items))
      with (add_topics (topics ∪ list_to_set (item_topics item)) items).
    rewrite IH, elem_of_union, elem_of_list_to_set. split.
    + intros [[?|?]|(item' & Hin & Htag)].
      * by left.
      * right. exists item. split; [left|done].
      * right. exists item'. split; [by right|done].
    + intros [?|(item' & Hin & Htag)]; [by left; left|].
      apply elem_of_cons in Hin as [->|Hin]; [by left; right|].
      right. by exists item'.
Qed.

Section PagesSeen.
Context `{W : World}.

Lemma pages_from_nonempty fuel cursor pages :
  pages_from fuel cursor = Some pages → pages ≠ [].
Proof.
  destruct fuel as [|fuel]; [done|]. simpl.
  destruct (get_items 1000 cursor) as [items next].
  case_bool_decide; [by intros [= <-]|].
  destruct (pages_from fuel next); [|done]. by intros [= <-].
Qed.

Lemma pages_from_step fuel cursor pages :
  pages_from (S fuel) cursor = Some pages →
  let '(items, next) := get_items 1000 cursor in
  (next = "" ∧ pages = [items])
  ∨ (next ≠ "" ∧ ∃ rest, pages_from fuel next = Some rest
                          ∧ rest ≠ [] ∧ pages = items :: rest).
Proof.
  simpl. destruct (get_items 1000 cursor) as [items next].
  case_bool_decide as Hnext; [intros [= <-]; by left|].
  destruct (pages_from fuel next) as [rest|] eqn:Hrest; [|done].
  intros [= <-]. right. split; [done|]. exists rest.
  split; [done|]. split; [by eapply pages_from_nonempty|done].
Qed.

Lemma removelast_cons {A} (x : A) l : l ≠ [] → removelast (x :: l) = x :: removelast l.
Proof. by destruct l. Qed.

(** The topics [upsert_repos] loads are those of all the pages. *)
Lemma load_topics_reads fuel cursor pages topics s :
  pages_from fuel cursor = Some pages →
  run (load_topics fuel cursor topics) s
  = (Done (add_topics topics (concat pages)), s).
Proof.
  revert cursor pages topics.
  induction fuel as [|fuel IH]; intros cursor pages topics Hpages; [done|].
  apply pages_from_step in Hpages.
  destruct (get_items 1000 cursor) as [items next] eqn:Hget.
  destruct Hpages as [[-> ->]|(Hnext & rest & Hrest & _ & ->)].
  - rewrite (load_topics_last_page _ _ _ _ _ Hget). cbn [concat].
    by rewrite app_nil_r.
  - unfold run. simpl. rewrite Hget, bool_decide_eq_false_2 by done.
    rewrite add_topics_app. by apply IH.
Qed.

(** X5. [upsert_repos] loads its topics from every page of the catalog,
    the last one included, and leaves the store as it is. *)
Theorem load_topics_covers_catalog fuel cursor pages topics s :
  pages_from fuel cursor = Some pages →
  run (load_topics fuel cursor topics) s
  = (Done (add_topics topics (concat pages)), s).
Proof. apply load_topics_reads. Qed.

(** X6. What becomes a topic to search for: every tag of a raw item of the
    catalog, and for an upgraded item every key of its labels record, such
    as [embedding], rather than the topics stored under it. *)
Theorem loaded_topics_of_items fuel cursor pages item s :
  pages_from fuel cursor = Some pages →
  item ∈ concat pages →
  ∃ loaded,
    run (load_topics fuel cursor ∅) s = (Done loaded, s)
    ∧ (∀ tags tag, Labels item = LabelsList tags → tag ∈ tags → tag ∈ loaded)
    ∧ (∀ d key, Labels item = LabelsDict d → is_Some (d !! key) → key ∈ loaded).
Proof.
  intros Hpages Hitem. eexists. split; [by apply load_topics_reads|].
  split.
  - intros tags tag Hraw Htag. apply elem_of_add_topics. right.
    exists item. split; [done|]. unfold item_topics. by rewrite Hraw.
  - intros d key Hdict Hkey. apply elem_of_add_topics. right.
    exists item. split; [done|]. unfold item_topics. rewrite Hdict.
    by apply elem_of_elements, elem_of_dom.
Qed.

(** X7. [upgrade_items] and [upgrade_embedding] apply their per-item step
    to the items of all the pages but the last, in order, and to nothing
    else. *)
Theorem revalidation_covers_all_but_last fuel cursor pages s :
  pages_from fuel cursor = Some pages →
  run (upgrade_items_from fuel cursor) s
  = run (for_each upgrade_item (concat (removelast pages))) s
  ∧ run (upgrade_embedding_from fuel cursor) s
    = run (for_each refresh_item (concat (removelast pages))) s.
Proof.
  revert cursor pages s.
  induction fuel as [|fuel IH]; intros cursor pages s Hpages; [done|].
  apply pages_from_step in Hpages.
  destruct (get_items 1000 cursor) as [items next] eqn:Hget.
  destruct Hpages as [[-> ->]|(Hnext & rest & Hrest & Hne & ->)].
  - by rewrite (upgrade_items_last_page _ _ _ _ Hget),
      (upgrade_embedding_last_page _ _ _ _ Hget).
  - rewrite (upgrade_items_next_page _ _ _ _ _ Hget Hnext),
      (upgrade_embedding_next_page _ _ _ _ _ Hget Hnext).
    rewrite (removelast_cons _ _ Hne). simpl concat.
    rewrite !run_for_each_app, !run_bind. split.
    + destruct (run (for_each upgrade_item items) s) as [[[]|e|] s1]; [|done..].
      by apply IH.
    + destruct (run (for_each refresh_item items) s) as [[[]|e|] s1]; [|done..].
      by apply IH.
Qed.

End PagesSeen.

(** X5 on the sample catalog of two pages. *)
Lemma load_topics_covers_catalog_witness :
  run (load_topics (W:=Sample.world) 3 "" ∅) Sample.fresh
  = (Done (add_topics ∅
             (concat [(get_items (World:=Sample.world) 1000 "").1;
                      (get_items (World:=Sample.world) 1000 "page2").1])),
     Sample.fresh).
Proof.
  apply (load_topics_covers_catalog (W:=Sample.world) 3 "" _ ∅ Sample.fresh).
  reflexivity.
Defined.

(** X6 on the upgraded item of the first sample page: [embedding] is
    loaded as a topic. *)
Lemma loaded_topics_of_items_witness :
  ∃ loaded,
    run (load_topics (W:=Sample.world) 3 "" ∅) Sample.fresh
    = (Done loaded, Sample.fresh)
    ∧ "embedding" ∈ loaded.
Proof.
  destruct (loaded_topics_of_items (W:=Sample.world) 3 ""
              [(get_items (World:=Sample.world) 1000 "").1;
               (get_items (World:=Sample.world) 1000 "page2").1]
              (Sample.upgraded "bob:lib" "hello") Sample.fresh)
    as (loaded & Hrun & _ & Hkeys).
  - reflexivity.
  - simpl. set_solver.
  - exists loaded. split; [exact Hrun|].
    eapply Hkeys; [reflexivity|]. by eexists.
Defined.

(** X7 on the sample catalog of two pages: only the first is processed. *)
Lemma revalidation_covers_all_but_last_witness :
  run (upgrade_items (W:=Sample.world) 3) Sample.fresh
  = run (for_each (upgrade_item (W:=Sample.world))
           (get_items (World:=Sample.world) 1000 "").1) Sample.fresh.
Proof.
  destruct (revalidation_covers_all_but_last (W:=Sample.world) 3 ""
              [(get_items (World:=Sample.world) 1000 "").1;
               (get_items (World:=Sample.world) 1000 "page2").1]
              Sample.fresh eq_refl) as [Hitems _].
  unfold upgrade_items. rewrite Hitems. reflexivity.
Defined.

(** ** Workflow B beyond the single outcome *)

(** One step of a proof that a command respects a relation on stores. *)
Ltac respects_step :=
  lazymatch goal with
  | |- PreOrder _ => apply _
  | |- respects _ (bind _ _) => apply respects_bind; [apply _ | | intros ?]
  | |- respects _ (ret _) => apply respects_ret; apply _
  | |- respects _ pass => apply respects_pass; apply _
  | |- respects _ (raise _) => apply respects_raise; apply _
  | |- respects _ diverge => apply respects_diverge; apply _
  | |- respects _ (remote _) => apply respects_remote; apply _
  | |- respects _ (try_except _ _) =>
      apply respects_try_except; [apply _ | | intros ?]
  | |- respects _ (for_each _ _) => apply respects_for_each; [apply _ | intros ?]
  | |- respects _ (if _ then _ else _) => apply respects_if
  | |- respects (only_calls _) (call _) => apply only_calls_call; done
  | |- respects (only_calls _) (print _) => apply only_calls_call; done
  end.

Section Revalidation.
Context `{W : World}.

Lemma data_message_respects (R : relation Store) `{!PreOrder R} g :
  respects R (data_message g).
Proof. unfold data_message. destruct (data g) as [[m|]|]; respects_step. Qed.

Lemma fetch_repo_calls P item :
  P (DeleteItem (ItemId item)) → (∀ line, P (Stdout line)) →
  respects (only_calls P) (fetch_repo item).
Proof.
  intros Hdelete Hprint. unfold fetch_repo, delete_and_log.
  repeat respects_step.
  destruct e as [g| | | | | | |]; try respects_step.
  destruct (gh_class g); repeat respects_step;
    try (apply data_message_respects; apply _).
Qed.

Lemma enrich_calls P repo :
  (∀ line, P (Stdout line)) → respects (only_calls P) (enrich repo).
Proof.
  intros Hprint. unfold enrich. repeat respects_step.
  destruct (description repo); repeat respects_step.
Qed.

Lemma try_enrich_calls P item repo :
  P (DeleteItem (ItemId item)) → (∀ line, P (Stdout line)) →
  respects (only_calls P) (try_enrich item repo).
Proof.
  intros Hdelete Hprint. unfold try_enrich, delete_and_log.
  respects_step; [respects_step; [by apply enrich_calls|respects_step]|].
  destruct e as [[[] ? ? ?]| | | | | | |]; repeat respects_step.
Qed.

Lemma upgrade_item_calls P item :
  P (DeleteItem (ItemId item)) → (∀ p, P (UpdateItem (ItemId item) p)) →
  (∀ line, P (Stdout line)) →
  respects (only_calls P) (upgrade_item item).
Proof.
  intros Hdelete Hupdate Hprint. unfold upgrade_item.
  destruct (Labels item); [respects_step| |respects_step].
  apply respects_bind; [apply _|by apply fetch_repo_calls|].
  intros [repo|]; [|respects_step].
  apply respects_if; [repeat respects_step|].
  apply respects_if; [repeat respects_step|].
  apply respects_bind; [apply _|by apply try_enrich_calls|].
  intros [[language vector]|]; [|respects_step].
  unfold update_from. repeat respects_step.
Qed.

Lemma upgrade_items_from_calls P fuel cursor :
  (∀ id, P (DeleteItem id)) → (∀ id p, P (UpdateItem id p)) →
  (∀ line, P (Stdout line)) →
  respects (only_calls P) (upgrade_items_from fuel cursor).
Proof.
  intros Hdelete Hupdate Hprint. revert cursor.
  induction fuel as [|fuel IH]; intros cursor; simpl; [respects_step|].
  destruct (get_items 1000 cursor) as [items next].
  repeat respects_step; [by apply upgrade_item_calls|apply IH].
Qed.

(** X8. Workflow B only updates, deletes and prints: whatever the catalog
    and the registry answer, a run of [upgrade_items] inserts no item,
    never sleeps and leaves the checkpoint store as it is. *)
Theorem upgrade_items_only_revalidates fuel s :
  db (run (upgrade_items fuel) s).2 = db s
  ∧ ∃ tr, calls_since s (run (upgrade_items fuel) s).2 tr
          ∧ Forall revalidation_call tr.
Proof. by apply (upgrade_items_from_calls revalidation_call fuel ""). Qed.

(** X9. The step on an item writes to that item only: a catalog write it
    makes is an update or a delete of the item's own id. *)
Theorem upgrade_item_writes_own_item item s :
  ∃ tr, calls_since s (run (upgrade_item item) s).2 tr
        ∧ Forall (writes_to (ItemId item)) tr.
Proof. by apply (upgrade_item_calls (writes_to (ItemId item)) item). Qed.

Lemma upgrade_item_skips item s :
  (∀ tags, Labels item ≠ LabelsList tags) →
  run (upgrade_item item) s = (Done (), s).
Proof.
  intros Hnot. unfold upgrade_item.
  destruct (Labels item) as [|tags|d]; [done| |done]. by destruct (Hnot tags).
Qed.

Lemma upgrade_page_skips items s :
  (∀ item tags, item ∈ items → Labels item ≠ LabelsList tags) →
  run (for_each upgrade_item items) s = (Done (), s).
Proof.
  induction items as [|item items IH]; intros Hnot; [done|].
  rewrite run_for_each_cons, upgrade_item_skips.
  - apply IH. intros item' tags Hin. apply Hnot. by right.
  - intros tags. apply Hnot. by left.
Qed.

(** X10. Over a catalog whose items are all out of the raw state, a run of
    [upgrade_items] asks the registry nothing and changes nothing: the
    store and the list of calls stay as they are, on every page. *)
Theorem upgraded_catalog_is_left_alone fuel cursor s :
  (∀ c item tags, item ∈ (get_items 1000 c).1 → Labels item ≠ LabelsList tags) →
  (run (upgrade_items_from fuel cursor) s).2 = s
  ∧ ∀ e, (run (upgrade_items_from fuel cursor) s).1 ≠ Raise e.
Proof.
  intros Hnot. revert cursor.
  induction fuel as [|fuel IH]; intros cursor; [done|].
  destruct (get_items 1000 cursor) as [items next] eqn:Hget.
  destruct (decide (next = "")) as [->|Hnext].
  - by rewrite (upgrade_items_last_page _ _ _ _ Hget).
  - rewrite (upgrade_items_next_page _ _ _ _ _ Hget Hnext), run_bind.
    rewrite upgrade_page_skips; [apply IH|].
    intros item tags Hin. apply (Hnot cursor). by rewrite Hget.
Qed.

(** X11. An exception of the lookup that is not one of the registry
    client's own is not handled: the step raises it without a call, the
    loop over the page stops there and so does the command, the items
    that follow untouched. *)
Theorem lookup_failure_aborts item tags e rest fuel cursor next s :
  Labels item = LabelsList tags →
  get_repo (registry_name item) = Raises e →
  (∀ g, e ≠ Github g) →
  run (upgrade_item item) s = (Raise e, s)
  ∧ run (for_each upgrade_item (item :: rest)) s = (Raise e, s)
  ∧ (get_items 1000 cursor = (item :: rest, next) → next ≠ "" →
     run (upgrade_items_from (S fuel) cursor) s = (Raise e, s)).
Proof.
  intros Hraw Hrepo Hother.
  assert (Hstep : run (upgrade_item item) s = (Raise e, s)).
  { unfold upgrade_item, fetch_repo.
    rewrite Hraw, run_bind, run_try_except, run_bind, Hrepo.
    destruct e as [g| | | | | | |]; [by destruct (Hother g)|done..]. }
  assert (Hpage : run (for_each upgrade_item (item :: rest)) s = (Raise e, s)).
  { by rewrite run_for_each_cons, Hstep. }
  split; [done|]. split; [done|]. intros Hget Hnext.
  by rewrite (upgrade_items_next_page _ _ _ _ _ Hget Hnext), run_bind, Hpage.
Qed.

(** X12. Workflow B has no backoff: a lookup that fails on the rate limit,
    with a status other than 451 and a message that is no part of the
    blocked-access text, costs the item a [FAIL] line and nothing else;
    the item is kept and the step returns. *)
Theorem rate_limited_lookup_is_logged item tags g message s :
  Labels item = LabelsList tags →
  get_repo (registry_name item) = Raises (Github g) →
  gh_class g = RateLimitExceededException →
  status g ≠ 451 →
  data g = DataObject (Some message) →
  Py.contains "Repository access blocked" message = false →
  run (upgrade_item item) s
  = (Done (),
     record (Stdout ("FAIL " +:+ ItemId item +:+ " " +:+ gh_str g)) s).
Proof.
  intros Hraw Hrepo Hclass Hstatus Hdata Hpart. unfold upgrade_item.
  rewrite Hraw, run_bind.
  rewrite (fetch_repo_refused item g message s Hrepo) by (done || by rewrite Hclass).
  by rewrite Hpart, andb_false_r.
Qed.

End Revalidation.

(** X10 on the sample catalog whose two pages hold upgraded items only. *)
Lemma upgraded_catalog_is_left_alone_witness :
  (run (upgrade_items (W:=Corner.settled) 3) Sample.fresh).2 = Sample.fresh.
Proof.
  apply (upgraded_catalog_is_left_alone (W:=Corner.settled) 3 "" Sample.fresh).
  intros c item tags. simpl. destruct (String.eqb c ""); simpl;
    intros ->%list_elem_of_singleton; done.
Defined.

(** X11 on a registry that cannot be reached. *)
Lemma lookup_failure_aborts_witness :
  run (upgrade_items (W:=Corner.unreachable) 3) Sample.fresh
  = (Raise (ConnectionError "no route to host"), Sample.fresh).
Proof.
  apply (lookup_failure_aborts (W:=Corner.unreachable)
           (Sample.raw "ann:tool" ["rust"; "cli"]) ["rust"; "cli"]
           (ConnectionError "no route to host")
           [Sample.upgraded "bob:lib" "hello"] 2 "" "page2" Sample.fresh);
    done.
Defined.

(** X12 on a registry that answers with its rate limit. *)
Lemma rate_limited_lookup_is_logged_witness :
  run (upgrade_item (W:=Corner.limited) (Sample.raw "ann:tool" ["rust"]))
    Sample.fresh
  = (Done (),
     record (Stdout "FAIL ann:tool 403 API rate limit exceeded") Sample.fresh).
Proof.
  apply (rate_limited_lookup_is_logged (W:=Corner.limited)
           (Sample.raw "ann:tool" ["rust"]) ["rust"]
           {| gh_class := RateLimitExceededException; status := 403;
              data := DataObject (Some "API rate limit exceeded");
              gh_str := "403 API rate limit exceeded" |}
           "API rate limit exceeded" Sample.fresh); done.
Defined.

(** ** Counting the catalog writes of a step *)

Lemma tally_refl s : tally s s 0.
Proof. exists []. unfold calls_since. by rewrite app_nil_r. Qed.

Lemma tally_trans s s1 s2 n m :
  tally s s1 n → tally s1 s2 m → tally s s2 (n + m).
Proof.
  intros (tr1 & Hc1 & <-) (tr2 & Hc2 & <-). exists (tr1 ++ tr2).
  unfold calls_since in *. split; [by rewrite Hc2, Hc1, app_assoc|].
  apply count_app.
Qed.

Lemma tally_record s ev : tally s (record ev s) (if is_mutation ev then 1 else 0).
Proof.
  exists [ev]. split; [done|]. rewrite count_cons. unfold count. simpl.
  destruct (is_mutation ev); lia.
Qed.

Lemma tally_quiet s s' : only_calls quiet s s' → tally s s' 0.
Proof.
  intros [_ (tr & Hcalls & Hquiet)]. exists tr. split; [done|].
  clear Hcalls. induction Hquiet as [|ev tr Hev _ IH]; [done|].
  rewrite count_cons, IH. unfold quiet in Hev. by rewrite Hev.
Qed.

(** Adds up the writes of a store built by [record] from a known one. *)
Ltac tally_solve :=
  repeat first
    [ eassumption
    | apply tally_refl
    | eapply tally_trans; [|apply tally_record] ].

Section Writes.
Context `{W : World}.

Lemma fetch_repo_tally item s :
  ∃ n, tally s (run (fetch_repo item) s).2 n
       ∧ (n ≤ 1)%nat
       ∧ ∀ repo, (run (fetch_repo item) s).1 = Done (Some repo) → n = 0%nat.
Proof.
  unfold fetch_repo. rewrite run_try_except, run_bind.
  destruct (get_repo (registry_name item)) as [repo|e].
  { exists 0%nat. split; [apply tally_refl|]. split; [lia|done]. }
  destruct e as [[cls code dt str]| | | | | | |];
    try (exists 0%nat; split; [apply tally_refl|]; split; [lia|done]).
  destruct cls;
    cbv [run remote raise bind ret data_message delete_and_log print call
         data status gh_class];
    try destruct (bool_decide (code = 451));
    try destruct (bool_decide (code ≠ 0));
    try destruct dt as [[message|]|];
    try destruct (Py.contains "Repository access blocked" message);
    cbv beta iota;
    (eexists; split; [tally_solve|]; simpl; split; [lia|done]).
Qed.

Lemma try_enrich_tally item repo s :
  ∃ n, tally s (run (try_enrich item repo) s).2 n
       ∧ (n ≤ 1)%nat
       ∧ ∀ r, (run (try_enrich item repo) s).1 = Done (Some r) → n = 0%nat.
Proof.
  unfold try_enrich. rewrite run_try_except, run_bind.
  pose proof (tally_quiet _ _ (enrich_quiet repo s)) as Hquiet.
  destruct (run (enrich repo) s) as [[r|e|] s1]; simpl in Hquiet.
  - exists 0%nat. split; [done|]. split; [lia|done].
  - destruct e as [[[] code dt str]| | | | | | |];
      cbv [run raise bind ret delete_and_log print call];
      (eexists; split; [tally_solve|]; simpl; split; [lia|done]).
  - exists 0%nat. split; [done|]. split; [lia|done].
Qed.

Lemma update_from_tally item repo language vector s :
  ∃ n, tally s (run (update_from item repo language vector) s).2 n ∧ (n ≤ 1)%nat.
Proof.
  unfold update_from. rewrite run_bind.
  destruct (get_topics repo) as [topics|e];
    cbv [run remote raise bind ret print call];
    (eexists; split; [tally_solve|]; simpl; lia).
Qed.

(** X13. The step on an item makes at most one catalog write, however it
    ends: no item is deleted and updated, or written twice, in one pass. *)
Theorem upgrade_item_writes_at_most_once item s :
  ∃ tr, calls_since s (run (upgrade_item item) s).2 tr
        ∧ (count is_mutation tr ≤ 1)%nat.
Proof.
  cut (∃ n, tally s (run (upgrade_item item) s).2 n ∧ (n ≤ 1)%nat).
  { intros (n & (tr & Hcalls & <-) & Hle). by exists tr. }
  unfold upgrade_item.
  destruct (Labels item) as [|tags|d];
    try (exists 0%nat; split; [apply tally_refl|lia]).
  rewrite run_bind.
  destruct (fetch_repo_tally item s) as (n1 & Hn1 & Hle1 & Hzero1).
  destruct (run (fetch_repo item) s) as [[[repo|]|e|] s1];
    try (exists n1; by split).
  rewrite (Hzero1 repo eq_refl) in Hn1. simpl in Hn1.
  destruct (stargazers_count repo <? 100).
  { cbv [run bind call print]. eexists. split; [tally_solve|]. simpl. lia. }
  destruct (too_long (description repo)).
  { cbv [run bind call print]. eexists. split; [tally_solve|]. simpl. lia. }
  rewrite run_bind.
  destruct (try_enrich_tally item repo s1) as (n2 & Hn2 & Hle2 & Hzero2).
  destruct (run (try_enrich item repo) s1) as [[[[language vector]|]|e|] s2];
    try (exists (0 + n2)%nat; split; [by eapply tally_trans|lia]).
  rewrite (Hzero2 _ eq_refl) in Hn2. simpl in Hn2.
  destruct (update_from_tally item repo language vector s2) as (n3 & Hn3 & Hle3).
  exists (0 + 0 + n3)%nat. split; [|lia].
  eapply tally_trans; [by eapply tally_trans|done].
Qed.

Lemma update_from_keeps item repo language vector :
  respects (only_calls keeps) (update_from item repo language vector).
Proof. unfold update_from. repeat respects_step. Qed.

(** X14. A repository in good standing is never deleted: when the lookup
    returns a repository of 100 stars or more whose description fits, and
    the enrichment does not fail on an object that is gone, the step makes
    no delete call, whatever else happens. *)
Theorem healthy_item_is_kept item tags repo s :
  Labels item = LabelsList tags →
  get_repo (registry_name item) = Returns repo →
  100 ≤ stargazers_count repo →
  too_long (description repo) = false →
  (∀ e s1, run (enrich repo) s = (Raise e, s1) → is_unknown_object e = false) →
  ∃ tr, calls_since s (run (upgrade_item item) s).2 tr ∧ Forall keeps tr.
Proof.
  intros Hraw Hrepo Hstars Hshort Hfound.
  cut (only_calls keeps s (run (upgrade_item item) s).2); [by intros [_ ?]|].
  unfold upgrade_item.
  rewrite Hraw, run_bind, (fetch_repo_returns _ _ _ Hrepo).
  apply Z.ltb_ge in Hstars. rewrite Hstars, Hshort, run_bind.
  unfold try_enrich. rewrite run_try_except, run_bind.
  pose proof (enrich_calls keeps repo (λ _, I) s) as Hkeeps.
  destruct (run (enrich repo) s) as [[[language vector]|e|] s1] eqn:Hrich;
    simpl in Hkeeps; [| |done].
  - transitivity s1; [done|]. apply update_from_keeps.
  - specialize (Hfound e s1 eq_refl).
    destruct e as [[[] code dt str]| | | | | | |]; try done;
      (transitivity s1; [done|];
       by apply (only_calls_call keeps (Stdout _))).
Qed.

(** What the enrichment of a repository without description does. *)
Lemma enrich_summarises repo langs readme summary vector s :
  description repo = None →
  get_languages repo = Returns langs →
  get_readme repo = Returns readme →
  tldr readme = Returns summary →
  embedding summary = Returns vector →
  ∃ language,
    run (enrich repo) s
    = (Done (language, vector), record (Stdout ("QWEN: " +:+ summary)) s).
Proof.
  intros Hnone Hlangs Hreadme Htldr Hvec. eexists. unfold enrich.
  rewrite run_bind, Hlangs. cbn [run remote ret]. cbv beta iota.
  rewrite Hnone. unfold run, bind, remote, ret, print, call.
  by rewrite Hreadme, Htldr, Hvec.
Qed.

(** X15. A repository without description: the README is summarised, the
    summary is printed and embedded, and the update stores the embedding
    but no comment: the summary itself is not kept in the catalog. *)
Theorem summary_is_embedded_not_stored
    item tags repo langs readme summary vector topics s :
  Labels item = LabelsList tags →
  get_repo (registry_name item) = Returns repo →
  100 ≤ stargazers_count repo →
  description repo = None →
  get_languages repo = Returns langs →
  get_readme repo = Returns readme →
  tldr readme = Returns summary →
  embedding summary = Returns vector →
  get_topics repo = Returns topics →
  ∃ language,
    run (upgrade_item item) s
    = (Done (),
       record (Stdout ("UPDATE " +:+ full_name repo))
         (record
            (UpdateItem (ItemId item)
               {| categories := language;
                  new_labels :=
                    LabelsDict (<["topics" := Strings topics]>
                                  (<["embedding" := Floats vector]> ∅));
                  timestamp := Some (Py.strftime_iso (updated_at repo));
                  comment := None |})
            (record (Stdout ("QWEN: " +:+ summary)) s))).
Proof.
  intros Hraw Hrepo Hstars Hnone Hlangs Hreadme Htldr Hvec Htopics.
  destruct (enrich_summarises repo langs readme summary vector s
              Hnone Hlangs Hreadme Htldr Hvec) as [language Hrich].
  exists language. unfold upgrade_item.
  rewrite Hraw, run_bind, (fetch_repo_returns _ _ _ Hrepo).
  apply Z.ltb_ge in Hstars. rewrite Hstars, Hnone. cbn [too_long].
  rewrite run_bind. unfold try_enrich.
  set (s1 := record (Stdout ("QWEN: " +:+ summary)) s) in *.
  rewrite run_try_except, run_bind, Hrich.
  change (run (ret (Some (language, vector))) s1)
    with (Done (Some (language, vector)), s1).
  cbv beta iota. unfold update_from.
  rewrite run_bind, Htopics, Hnone. reflexivity.
Qed.

End Writes.

(** X14 on the sample repository [Ann/Tool]. *)
Lemma healthy_item_is_kept_witness :
  ∃ tr,
    calls_since Sample.fresh
      (run (upgrade_item (W:=Sample.world) (Sample.raw "ann:tool" ["rust"]))
         Sample.fresh).2 tr
    ∧ Forall keeps tr.
Proof.
  apply (healthy_item_is_kept (W:=Sample.world)
           (Sample.raw "ann:tool" ["rust"]) ["rust"] Sample.popular
           Sample.fresh); done.
Defined.

(** X15 on the sample repository [fay/bare]. *)
Lemma summary_is_embedded_not_stored_witness :
  comment <$> patches "fay:bare"
    (calls (run (upgrade_item (W:=Sample.world) (Sample.raw "fay:bare" ["go"]))
              Sample.fresh).2)
  = [None].
Proof.
  destruct (summary_is_embedded_not_stored (W:=Sample.world)
              (Sample.raw "fay:bare" ["go"]) ["go"] Sample.undescribed
              [("Go", 1)] "A command line tool. Usage: run it."
              "A command line" [14 # 1; 1 # 2] ["go"] Sample.fresh)
    as [language Hrun]; [done..|].
  rewrite Hrun. reflexivity.
Defined.

(** ** Workflow C: the calls it makes *)

Section RefreshCalls.
Context `{W : World}.

Lemma refresh_item_calls item : respects (only_calls refresh_call) (refresh_item item).
Proof.
  intros s. unfold refresh_item, run.
  destruct (Comment item) as [text|]; [|reflexivity].
  destruct (0 <? String.length text)%nat; [|reflexivity].
  unfold bind, remote. destruct (embedding text) as [vector|e]; [|reflexivity].
  unfold set_embedding. destruct (Labels item) as [|tags|d]; try reflexivity.
  apply (only_calls_call refresh_call (UpdateItem _ _)). simpl.
  repeat split. eexists. split; [done|]. by rewrite lookup_insert_eq.
Qed.

(** X16. Every call of [upgrade_embedding] is an update that passes the
    labels alone, a record with an embedding: the command sets no
    categories, comment or timestamp, inserts and deletes nothing, prints
    nothing and leaves the checkpoint store as it is. *)
Theorem upgrade_embedding_only_refreshes fuel s :
  db (run (upgrade_embedding fuel) s).2 = db s
  ∧ ∃ tr, calls_since s (run (upgrade_embedding fuel) s).2 tr
          ∧ Forall refresh_call tr.
Proof.
  unfold upgrade_embedding. generalize "". revert s.
  cut (∀ cursor, respects (only_calls refresh_call)
                   (upgrade_embedding_from fuel cursor)).
  { intros Hall s cursor. apply Hall. }
  induction fuel as [|fuel IH]; intros cursor; simpl; [respects_step|].
  destruct (get_items 1000 cursor) as [items next].
  repeat respects_step; [apply refresh_item_calls|apply IH].
Qed.

End RefreshCalls.

(** ** The first of the largest *)

Lemma max_from_first d best w :
  (Py.max_from best w d = best ∧ ∀ k' w', (k', w') ∈ d → w' ≤ w)
  ∨ ∃ pre k v post,
      d = pre ++ (k, v) :: post
      ∧ Py.max_from best w d = k
      ∧ w < v
      ∧ (∀ k' w', (k', w') ∈ pre → w' < v)
      ∧ (∀ k' w', (k', w') ∈ post → w' ≤ v).
Proof.
  revert best w. induction d as [|[k0 v0] d IH]; intros best w; simpl.
  { left. split; [done|]. intros k' w' Hin. by apply elem_of_nil in Hin. }
  destruct (w <? v0) eqn:Hlt.
  - apply Z.ltb_lt in Hlt. right.
    destruct (IH k0 v0) as [[Hbest Hle]|(pre & k & v & post & -> & Hk & Hv & Hpre & Hpost)].
    + exists [], k0, v0, d. split; [done|]. split; [done|]. split; [done|].
      split; [|done]. intros k' w' Hin. by apply elem_of_nil in Hin.
    + exists ((k0, v0) :: pre), k, v, post. split; [done|]. split; [done|].
      split; [lia|]. split; [|done]. intros k' w' Hin.
      apply elem_of_cons in Hin as [[= -> ->]|Hin]; [done|eauto].
  - apply Z.ltb_ge in Hlt.
    destruct (IH best w) as [[Hbest Hle]|(pre & k & v & post & -> & Hk & Hv & Hpre & Hpost)].
    + left. split; [done|]. intros k' w' Hin.
      apply elem_of_cons in Hin as [[= -> ->]|Hin]; [done|eauto].
    + right. exists ((k0, v0) :: pre), k, v, post. split; [done|]. split; [done|].
      split; [done|]. split; [|done]. intros k' w' Hin.
      apply elem_of_cons in Hin as [[= -> ->]|Hin]; [lia|eauto].
Qed.

(** X17. The dominant language of line 159: among the languages of the
    largest byte-weight, the one that comes first in the order the
    registry lists them; every language before it weighs less. *)
Theorem max_key_is_first_maximum d k :
  Py.max_key d = Some k →
  ∃ pre w post,
    d = pre ++ (k, w) :: post
    ∧ (∀ k' w', (k', w') ∈ pre → w' < w)
    ∧ (∀ k' w', (k', w') ∈ post → w' ≤ w).
Proof.
  destruct d as [|[k0 v0] d]; [done|]. simpl. intros [= <-].
  destruct (max_from_first d k0 v0)
    as [[-> Hle]|(pre & k & v & post & -> & -> & Hv & Hpre & Hpost)].
  - exists [], v0, d. split; [done|]. split; [|done].
    intros k' w' Hin. by apply elem_of_nil in Hin.
  - exists ((k0, v0) :: pre), v, post. split; [done|]. split; [|done].
    intros k' w' Hin. apply elem_of_cons in Hin as [[= -> ->]|Hin]; [done|eauto].
Qed.

(** X17 on the languages of the sample repository [Ann/Tool]: [Rust] and
    [C] weigh the same, [Rust] comes first. *)
Lemma max_key_is_first_maximum_witness :
  ∃ pre w post,
    [("Shell", 10); ("Rust", 900); ("C", 900)] = pre ++ ("Rust", w) :: post
    ∧ (∀ k' w', (k', w') ∈ pre → w' < w)
    ∧ (∀ k' w', (k', w') ∈ post → w' ≤ w).
Proof.
  apply (max_key_is_first_maximum [("Shell", 10); ("Rust", 900); ("C", 900)]).
  reflexivity.
Defined.

(** ** Workflow A: what a run keeps *)

#[export] Instance calls_satisfy_preorder P : PreOrder (calls_satisfy P).
Proof.
  split.
  - intros s. exists []. split; [|done]. unfold calls_since. by rewrite app_nil_r.
  - intros s1 s2 s3 (tr1 & Hc1 & HP1) (tr2 & Hc2 & HP2).
    exists (tr1 ++ tr2). unfold calls_since in *.
    split; [by rewrite Hc2, Hc1, app_assoc|by apply Forall_app].
Qed.

#[export] Instance store_grows_preorder : PreOrder store_grows.
Proof.
  split.
  - intros s ns keys Hns. by exists keys.
  - intros s1 s2 s3 H12 H23 ns keys Hns.
    destruct (H12 ns keys Hns) as (keys2 & Hns2 & Hsub2).
    destruct (H23 ns keys2 Hns2) as (keys3 & Hns3 & Hsub3).
    exists keys3. split; [done|set_solver].
Qed.

Lemma repo_keys_grow s s' : store_grows s s' → repo_keys s ⊆ repo_keys s'.
Proof.
  intros Hgrow. unfold repo_keys.
  destruct (db s !! "repo") as [keys|] eqn:Hns; [|set_solver].
  destruct (Hgrow _ _ Hns) as (keys' & -> & Hsub). done.
Qed.

Lemma topic_keys_grow s s' : store_grows s s' → topic_keys s ⊆ topic_keys s'.
Proof.
  intros Hgrow. unfold topic_keys.
  destruct (db s !! "topic") as [keys|] eqn:Hns; [|set_solver].
  destruct (Hgrow _ _ Hns) as (keys' & -> & Hsub). done.
Qed.

Section BulkUpsert.
Context `{W : World}.

(** What the whole of Workflow A needs of a relation to respect it. *)
Section Generic.
Context (R : relation Store) `{!PreOrder R}.
Hypothesis Hprint : ∀ line, respects R (print line).
Hypothesis Hsleep : ∀ secs, respects R (call (Sleep secs)).
Hypothesis Hsearch : ∀ query, respects R (search query).
Hypothesis Hcandidate : ∀ repo, respects R (upsert_candidate repo).
Hypothesis Hadd : ∀ topic, respects R (db_dadd "topic" topic).
Hypothesis Hcreate : ∀ s, db s !! "topic" = None → R s (run (db_dcreate "topic") s).2.

Lemma upsert_topic_respects fuel topic : respects R (upsert_topic fuel topic).
Proof.
  induction fuel as [|fuel IH]; [by apply respects_diverge|].
  cbn [upsert_topic]. apply respects_try_except; [done| |].
  - apply respects_bind; [done| |by intros _].
    by apply search_and_upsert_respects.
  - intros e. apply respects_if;
      (apply respects_bind; [done|apply Hprint|]; intros _;
       apply respects_bind; [done|apply Hsleep|]; by intros _).
Qed.

Lemma upsert_topics_respects fuel topics : respects R (upsert_topics fuel topics).
Proof.
  apply respects_for_each; [done|]. intros topic.
  apply respects_bind; [done| |].
  { intros s. rewrite db_dexists_pure. reflexivity. }
  intros seen. apply respects_if; [by apply respects_pass|].
  apply upsert_topic_respects.
Qed.

Lemma upsert_repos_respects fuel : respects R (upsert_repos fuel).
Proof.
  intros s. unfold upsert_repos. rewrite run_bind.
  pose proof (load_topics_pure fuel "" ∅ s) as Hpure.
  destruct (run (load_topics fuel "" ∅) s) as [[topics|e|] s0];
    simpl in Hpure; subst s0; [|reflexivity..].
  rewrite run_bind.
  change (run (db_exists "topic") s)
    with (Done (bool_decide (is_Some (db s !! "topic"))), s).
  cbv beta iota. case_bool_decide as Hns.
  - rewrite run_bind. change (run pass s) with (Done (), s). cbv beta iota.
    apply upsert_topics_respects.
  - rewrite run_bind. change (run (db_dcreate "topic") s)
      with (Done (), (run (db_dcreate "topic") s).2).
    cbv beta iota. transitivity (run (db_dcreate "topic") s).2.
    + apply Hcreate. destruct (db s !! "topic") eqn:Hlook; [|done].
      destruct Hns. by eexists.
    + apply upsert_topics_respects.
Qed.

End Generic.

Lemma truncate_comment_fits text :
  match truncate_comment text with
  | Some text' => (String.length text' ≤ MAX_COMMENT_LENGTH)%nat
  | None => True
  end.
Proof.
  destruct text as [text|]; [|done]. unfold truncate_comment.
  destruct (MAX_COMMENT_LENGTH <? String.length text)%nat eqn:Hlong.
  - rewrite take_length. lia.
  - by apply Nat.ltb_ge in Hlong.
Qed.

Lemma upsert_candidate_bulk repo :
  respects (calls_satisfy bulk_call) (upsert_candidate repo).
Proof.
  intros s. rewrite upsert_candidate_run.
  assert (Hensure : calls_satisfy bulk_call s (ensure_repo s)).
  { unfold ensure_repo. destruct (db s !! "repo"); [reflexivity|].
    exists [DCreate "repo"]. split; [done|]. by repeat constructor. }
  case_bool_decide; [done|].
  destruct (get_topics repo) as [topics|e]; [|done]. simpl.
  transitivity (ensure_repo s); [done|].
  eexists [InsertItem _; DAdd "repo" _]. split; [done|].
  constructor; [|by repeat constructor]. simpl.
  split; [by eexists|]. split; [apply normalised_id|].
  apply truncate_comment_fits.
Qed.

(** X18. What Workflow A writes to the catalog: a run of [upsert_repos],
    however it ends, only inserts; each item it inserts is in the raw
    state with the categories of its labels, has a normalised id, and a
    comment of at most [MAX_COMMENT_LENGTH] characters. *)
Theorem upsert_repos_only_inserts_raw fuel s :
  ∃ tr, calls_since s (run (upsert_repos fuel) s).2 tr ∧ Forall bulk_call tr.
Proof.
  apply (upsert_repos_respects (calls_satisfy bulk_call)).
  - intros line s0. exists [Stdout line]. split; [done|]. by repeat constructor.
  - intros secs s0. exists [Sleep secs]. split; [done|]. by repeat constructor.
  - intros query s0. exists []. split; [|done]. unfold calls_since. simpl.
    by rewrite app_nil_r.
  - apply upsert_candidate_bulk.
  - intros topic s0. unfold run, db_dadd.
    destruct (db s0 !! "topic"); [|reflexivity].
    exists [DAdd "topic" topic]. split; [done|]. by repeat constructor.
  - intros s0 _. exists [DCreate "topic"]. split; [done|]. by repeat constructor.
Qed.

Lemma upsert_candidate_grows repo : respects store_grows (upsert_candidate repo).
Proof.
  intros s. rewrite upsert_candidate_run.
  assert (Hensure : store_grows s (ensure_repo s)).
  { unfold ensure_repo. destruct (db s !! "repo") eqn:Hrepo; [reflexivity|].
    intros ns keys Hns. exists keys. split; [|done]. simpl.
    rewrite lookup_insert_ne; [done|]. intros <-. congruence. }
  case_bool_decide; [done|].
  destruct (get_topics repo) as [topics|e]; [|done]. simpl.
  transitivity (ensure_repo s); [done|].
  intros ns keys Hns. simpl. destruct (decide (ns = "repo")) as [->|Hne].
  - rewrite lookup_insert_eq. eexists. split; [done|].
    unfold repo_keys. rewrite Hns. set_solver.
  - rewrite lookup_insert_ne by done. by exists keys.
Qed.

Lemma db_dadd_grows ns key : respects store_grows (db_dadd ns key).
Proof.
  intros s. unfold run, db_dadd.
  destruct (db s !! ns) as [keys0|] eqn:Hold; [|reflexivity].
  intros ns' keys Hns. simpl. destruct (decide (ns' = ns)) as [->|Hne].
  - rewrite lookup_insert_eq. eexists. split; [done|].
    rewrite Hold in Hns. injection Hns as <-. set_solver.
  - rewrite lookup_insert_ne by done. by exists keys.
Qed.

Lemma call_grows ev : respects store_grows (call ev).
Proof. intros s ns keys Hns. by exists keys. Qed.

Lemma search_grows query : respects store_grows (search query).
Proof. intros s ns keys Hns. by exists keys. Qed.

Lemma db_dcreate_grows s :
  db s !! "topic" = None → store_grows s (run (db_dcreate "topic") s).2.
Proof.
  intros Hnone ns keys Hns. exists keys. split; [|done]. simpl.
  rewrite lookup_insert_ne; [done|]. intros <-. congruence.
Qed.

(** X19. The checkpoint store only grows: over a run of [upsert_repos],
    however it ends, no namespace is lost and no key leaves a namespace;
    what a failed pass has checkpointed stays checkpointed. *)
Theorem checkpoints_only_grow fuel s :
  ∀ ns keys, db s !! ns = Some keys →
    ∃ keys', db (run (upsert_repos fuel) s).2 !! ns = Some keys' ∧ keys ⊆ keys'.
Proof.
  apply (upsert_repos_respects store_grows).
  - intros line. apply call_grows.
  - intros secs. apply call_grows.
  - apply search_grows.
  - apply upsert_candidate_grows.
  - intros topic. apply db_dadd_grows.
  - apply db_dcreate_grows.
Qed.

End BulkUpsert.

(** ** Workflow A: running it again *)

Section Resume.
Context `{W : World}.

Lemma run_db_dexists ns key keys s :
  db s !! ns = Some keys →
  run (db_dexists ns key) s = (Done (bool_decide (key ∈ keys)), s).
Proof. intros Hns. unfold run, db_dexists. by rewrite Hns. Qed.

Lemma run_db_dexists_missing ns key s :
  db s !! ns = None → run (db_dexists ns key) s = (Raise (KeyError ns), s).
Proof. intros Hns. unfold run, db_dexists. by rewrite Hns. Qed.

Lemma for_each_candidate_grows repos :
  respects store_grows (for_each upsert_candidate repos).
Proof. apply respects_for_each; [apply _|]. apply upsert_candidate_grows. Qed.

(** A candidate whose step returned is checkpointed. *)
Lemma upsert_candidate_checkpoints repo s s' :
  run (upsert_candidate repo) s = (Done (), s') →
  full_name repo ∈ repo_keys s'.
Proof.
  rewrite upsert_candidate_run. case_bool_decide as Hseen.
  - intros [= <-]. by rewrite repo_keys_ensure.
  - destruct (get_topics repo) as [topics|e]; [|done]. intros [= <-].
    unfold repo_keys at 1. simpl. rewrite lookup_insert_eq. simpl. set_solver.
Qed.

Lemma candidates_checkpointed repos s s' :
  run (for_each upsert_candidate repos) s = (Done (), s') →
  ∀ repo, repo ∈ repos → full_name repo ∈ repo_keys s'.
Proof.
  revert s. induction repos as [|repo0 repos IH]; intros s Hrun repo Hin.
  { by apply elem_of_nil in Hin. }
  rewrite run_for_each_cons in Hrun.
  destruct (run (upsert_candidate repo0) s) as [[[]|e|] s1] eqn:Hstep; [|done..].
  apply elem_of_cons in Hin as [->|Hin]; [|by eapply IH].
  apply upsert_candidate_checkpoints in Hstep.
  pose proof (for_each_candidate_grows repos s1) as Hgrow.
  rewrite Hrun in Hgrow. by apply (repo_keys_grow _ _ Hgrow).
Qed.

Lemma candidates_seen repos s :
  (∀ repo, repo ∈ repos → full_name repo ∈ repo_keys s) →
  run (for_each upsert_candidate repos) s = (Done (), s).
Proof.
  induction repos as [|repo repos IH]; intros Hseen; [done|].
  rewrite run_for_each_cons, upsert_candidate_seen.
  - apply IH. intros repo' Hin. apply Hseen. by right.
  - apply Hseen. by left.
Qed.

(** X20. A pass over the same candidates again is free: after a loop over
    the results of a search has returned, a second loop over the same
    results makes no call and changes nothing. *)
Theorem second_pass_is_free repos s s' :
  run (for_each upsert_candidate repos) s = (Done (), s') →
  run (for_each upsert_candidate repos) s' = (Done (), s').
Proof.
  intros Hrun. apply candidates_seen. by apply (candidates_checkpointed repos s).
Qed.

Lemma upsert_topic_checkpoints fuel topic s s' :
  run (upsert_topic fuel topic) s = (Done (), s') → topic ∈ topic_keys s'.
Proof.
  intros Hrun. pose proof (upsert_topic_spec fuel topic s) as Hspec.
  rewrite Hrun in Hspec. destruct Hspec as (s0 & s1 & _ & _ & _ & Hadd).
  unfold run, db_dadd in Hadd. destruct (db s1 !! "topic"); [|done].
  injection Hadd as <-. unfold topic_keys. simpl.
  rewrite lookup_insert_eq. simpl. set_solver.
Qed.

Lemma upsert_topics_grows fuel topics : respects store_grows (upsert_topics fuel topics).
Proof.
  apply upsert_topics_respects; [apply _|..].
  - intros line. apply call_grows.
  - intros secs. apply call_grows.
  - apply search_grows.
  - apply upsert_candidate_grows.
  - intros topic. apply db_dadd_grows.
Qed.

Lemma topics_checkpointed fuel topics s s' :
  run (upsert_topics fuel topics) s = (Done (), s') →
  ∀ topic, topic ∈ topics → topic ∈ topic_keys s'.
Proof.
  revert s. induction topics as [|topic0 topics IH]; intros s Hrun topic Hin.
  { by apply elem_of_nil in Hin. }
  unfold upsert_topics in Hrun. rewrite run_for_each_cons in Hrun.
  fold (upsert_topics fuel topics) in Hrun.
  destruct (run (seen <- db_dexists "topic" topic0;;
                 if seen then pass else upsert_topic fuel topic0) s)
    as [[[]|e|] s1] eqn:Hstep; [|done..].
  apply elem_of_cons in Hin as [->|Hin]; [|by eapply IH].
  assert (Hmid : topic0 ∈ topic_keys s1).
  { rewrite run_bind in Hstep.
    destruct (db s !! "topic") as [keys|] eqn:Hns;
      [|by rewrite (run_db_dexists_missing _ _ _ Hns) in Hstep].
    rewrite (run_db_dexists _ _ _ _ Hns) in Hstep.
    case_bool_decide as Hseen.
    - injection Hstep as <-. unfold topic_keys. by rewrite Hns.
    - by apply upsert_topic_checkpoints in Hstep. }
  pose proof (upsert_topics_grows fuel topics s1) as Hgrow.
  rewrite Hrun in Hgrow. by apply (topic_keys_grow _ _ Hgrow).
Qed.

Lemma topics_seen fuel topics s :
  (∀ topic, topic ∈ topics → topic ∈ topic_keys s) →
  run (upsert_topics fuel topics) s = (Done (), s).
Proof.
  induction topics as [|topic topics IH]; intros Hseen; [done|].
  unfold upsert_topics. rewrite run_for_each_cons.
  fold (upsert_topics fuel topics).
  assert (Hin : topic ∈ topic_keys s) by (apply Hseen; by left).
  unfold topic_keys in Hin. rewrite run_bind.
  destruct (db s !! "topic") as [keys|] eqn:Hns; [|by apply elem_of_empty in Hin].
  simpl in Hin. rewrite (run_db_dexists _ _ _ _ Hns).
  rewrite bool_decide_eq_true_2 by done.
  change (run pass s) with (Done (), s). cbv beta iota.
  apply IH. intros topic' Hin'. apply Hseen. by right.
Qed.

(** X21. Resuming: once the loop over the topics has returned, the same
    loop over the same topics, with whatever retry budget, issues no
    search and makes no call; every topic is found in the checkpoint
    store and passed over. *)
Theorem topics_are_not_searched_again fuel fuel' topics s s' :
  run (upsert_topics fuel topics) s = (Done (), s') →
  run (upsert_topics fuel' topics) s' = (Done (), s').
Proof.
  intros Hrun. apply topics_seen. by apply (topics_checkpointed fuel topics s).
Qed.

Lemma failed_pass_keeps_namespace topic e s s1 :
  run (search_and_upsert (Some topic) None) s = (Raise e, s1) →
  is_Some (db s !! "topic") →
  is_Some (db (cooldown e s1) !! "topic").
Proof.
  intros Hrun Hns.
  pose proof (search_and_upsert_no_topic topic (Some topic) None s) as [Hkeep _].
  rewrite Hrun in Hkeep. by apply Hkeep.
Qed.

(** X22. Retry convergence: when [n] passes over a topic in a row raise,
    whatever they raise, and the next one returns, a loop with room for
    more than [n] passes ends, with the topic added to its namespace as
    the last call. *)
Theorem retries_converge topic n fuel s sn s2 :
  failed_passes topic n s sn →
  run (search_and_upsert (Some topic) None) sn = (Done (), s2) →
  is_Some (db s !! "topic") →
  (n < fuel)%nat →
  ∃ s', run (upsert_topic fuel topic) s = (Done (), s')
        ∧ calls_since s2 s' [DAdd "topic" topic]
        ∧ topic ∈ topic_keys s'.
Proof.
  intros Hfailed. revert fuel.
  induction Hfailed as [s|n s e s1 s' Hrun Hfailed IH];
    intros fuel Hpass Hns Hfuel.
  - destruct fuel as [|fuel]; [lia|].
    pose proof (search_and_upsert_no_topic topic (Some topic) None s) as [Hkeep _].
    rewrite Hpass in Hkeep. destruct (Hkeep Hns) as [keys Hkeys].
    eexists. split; [by apply upsert_topic_done|]. split; [done|].
    unfold topic_keys. simpl. rewrite lookup_insert_eq. simpl. set_solver.
  - destruct fuel as [|fuel]; [lia|].
    rewrite (upsert_topic_raise _ _ _ _ _ Hrun).
    apply IH; [done| |lia]. by eapply failed_pass_keeps_namespace.
Qed.

End Resume.

(** X20 on the results of the second sample search. *)
Lemma second_pass_is_free_witness :
  let repos := [Sample.popular; Sample.pythonic] in
  let s' := (run (for_each (upsert_candidate (W:=Sample.world)) repos)
               Sample.fresh).2 in
  run (for_each (upsert_candidate (W:=Sample.world)) repos) s' = (Done (), s').
Proof.
  cbv zeta.
  apply (second_pass_is_free (W:=Sample.world)
           [Sample.popular; Sample.pythonic] Sample.fresh).
  vm_compute. reflexivity.
Defined.

(** X21 on the topics [rust] and [cli] of the sample world. *)
Lemma topics_are_not_searched_again_witness :
  let s' := (run (upsert_topics (W:=Sample.world) 3 ["rust"; "cli"])
               Corner.started).2 in
  run (upsert_topics (W:=Sample.world) 1 ["rust"; "cli"]) s' = (Done (), s').
Proof.
  cbv zeta.
  apply (topics_are_not_searched_again (W:=Sample.world) 3 1 ["rust"; "cli"]
           Corner.started).
  vm_compute. reflexivity.
Defined.

(** X22 on a registry whose first search is rate limited and whose second
    breaks off on a network error. *)
Lemma retries_converge_witness :
  ∃ s', run (upsert_topic (W:=Corner.limited) 3 "rust") Corner.started
        = (Done (), s')
        ∧ "rust" ∈ topic_keys s'.
Proof.
  destruct (retries_converge (W:=Corner.limited) "rust" 2 3 Corner.started
              (cooldown (ConnectionError "connection reset")
                 (run (search_and_upsert (W:=Corner.limited) (Some "rust") None)
                    (cooldown Sample.rate_limited
                       (run (search_and_upsert (W:=Corner.limited)
                               (Some "rust") None) Corner.started).2)).2)
              (run (search_and_upsert (W:=Corner.limited) (Some "rust") None)
                 (cooldown (ConnectionError "connection reset")
                    (run (search_and_upsert (W:=Corner.limited) (Some "rust") None)
                       (cooldown Sample.rate_limited
                          (run (search_and_upsert (W:=Corner.limited)
                                  (Some "rust") None) Corner.started).2)).2)).2)
    as (s' & Hrun & _ & Hkey).
  - eapply (failed_more (W:=Corner.limited) "rust" 1 _ Sample.rate_limited);
      [vm_compute; reflexivity|].
    eapply (failed_more (W:=Corner.limited) "rust" 0 _
              (ConnectionError "connection reset"));
      [vm_compute; reflexivity|].
    apply failed_none.
  - vm_compute. reflexivity.
  - by eexists.
  - lia.
  - by exists s'.
Defined.

(** ** The single upsert *)

Section SingleUpsert.
Context `{W : World}.
Variable get_repo_info : string → reply Item.
Variable item_str : Item → string.

Lemma ensure_repo_tally s : tally s (ensure_repo s) 0.
Proof.
  unfold ensure_repo. destruct (db s !! "repo"); [apply tally_refl|].
  by exists [DCreate "repo"].
Qed.

Lemma checkpoint_tally it key s : tally s (checkpoint it key s) 1.
Proof. by exists [InsertItem it; DAdd "repo" key]. Qed.

(** X23. [upsert_repo] inserts without a checkpoint: it leaves the
    checkpoint store as it is, so a repository that was not checkpointed
    before is still inserted by the step of the bulk upsert that meets it
    afterwards; the two commands together make two inserts. When the
    lookup of [upsert_repo] raises, nothing is inserted or printed. *)
Theorem single_upsert_leaves_no_checkpoint item_id repo topics s :
  full_name repo ∉ repo_keys s →
  get_topics repo = Returns topics →
  match get_repo_info item_id with
  | Returns it =>
      run (upsert_repo get_repo_info item_str item_id) s
      = (Done (), record (Stdout (item_str it)) (record (InsertItem it) s))
      ∧ ∃ s',
          run (upsert_repo get_repo_info item_str item_id;;
               upsert_candidate repo) s = (Done (), s')
          ∧ tally s s' 2
          ∧ full_name repo ∈ repo_keys s'
  | Raises e =>
      run (upsert_repo get_repo_info item_str item_id) s = (Raise e, s)
  end.
Proof.
  intros Hfresh Htopics. unfold upsert_repo.
  destruct (get_repo_info item_id) as [it|e] eqn:Hinfo; [|done].
  split; [done|].
  set (s1 := record (Stdout (item_str it)) (record (InsertItem it) s)).
  assert (Hkeys : repo_keys s1 = repo_keys s) by done.
  eexists. split.
  - rewrite run_bind.
    change (run (bind (remote (Returns it)) _) s) with (Done (), s1).
    cbv beta iota. rewrite upsert_candidate_run, Htopics.
    by rewrite bool_decide_eq_false_2 by (by rewrite Hkeys).
  - split.
    + change 2%nat with (1 + 0 + 0 + 1)%nat.
      eapply tally_trans; [|apply checkpoint_tally].
      eapply tally_trans; [|apply ensure_repo_tally].
      subst s1. eapply tally_trans; [apply (tally_record s (InsertItem it))|].
      apply (tally_record _ (Stdout _)).
    + unfold repo_keys at 1. simpl. rewrite lookup_insert_eq. simpl. set_solver.
Qed.

End SingleUpsert.

(** X23 on the sample repository [Ann/Tool], upserted by hand and then met
    by the bulk upsert. *)
Lemma single_upsert_leaves_no_checkpoint_witness :
  ∃ s',
    run (upsert_repo (λ _, Returns (Sample.raw "ann:tool" ["rust"])) ItemId
           "Ann/Tool";;
         upsert_candidate (W:=Sample.world) Sample.popular) Sample.fresh
    = (Done (), s')
    ∧ tally Sample.fresh s' 2.
Proof.
  destruct (single_upsert_leaves_no_checkpoint (W:=Sample.world)
              (λ _, Returns (Sample.raw "ann:tool" ["rust"])) ItemId
              "Ann/Tool" Sample.popular ["rust"; "cli"] Sample.fresh)
    as (_ & s' & Hrun & Htally & _); [set_solver|done|].
  by exists s'.
Defined.

(** ** A catalog without labels *)

Lemma add_topics_nothing topics items :
  (∀ item, item ∈ items → item_topics item = []) →
  add_topics topics items = topics.
Proof.
  revert topics. induction items as [|item items IH]; intros topics Hnone; [done|].
  change (add_topics topics (item :: items))
    with (add_topics (topics ∪ list_to_set (item_topics item)) items).
  rewrite (Hnone item) by (by left). simpl.
  replace (topics ∪ ∅) with topics by set_solver.
  apply IH. intros item' Hin. apply Hnone. by right.
Qed.

Section Seeding.
Context `{W : World}.

(** X4. The bulk upsert takes its topics from the catalog alone: over a
    catalog whose items carry no labels, an empty catalog among them,
    [upsert_repos] issues no search and makes no catalog call; it only
    creates the [topic] namespace where that is missing. *)
Theorem unlabelled_catalog_seeds_nothing fuel pages s :
  pages_from fuel "" = Some pages →
  (∀ item, item ∈ concat pages → item_topics item = []) →
  run (upsert_repos fuel) s
  = (Done (),
     if bool_decide (is_Some (db s !! "topic")) then s
     else {| db := <["topic" := ∅]> (db s);
             calls := calls s ++ [DCreate "topic"];
             searches := searches s |}).
Proof.
  intros Hpages Hnone. unfold upsert_repos.
  rewrite run_bind, (load_topics_reads _ _ _ _ _ Hpages).
  rewrite (add_topics_nothing _ _ Hnone), elements_empty.
  unfold run, bind, db_exists. by case_bool_decide.
Qed.

End Seeding.

(** X4 on the empty catalog. *)
Lemma unlabelled_catalog_seeds_nothing_witness :
  run (upsert_repos (W:=Corner.empty) 1) Corner.started
  = (Done (), Corner.started).
Proof.
  apply (unlabelled_catalog_seeds_nothing (W:=Corner.empty) 1 [[]]
           Corner.started); [done|].
  intros item Hin. by apply elem_of_nil in Hin.
Defined.

(** X19 on a run over the sample world that starts with one checkpointed
    repository. *)
Lemma checkpoints_only_grow_witness :
  let s := {| db := {["repo" := {["old/one"]}]}; calls := []; searches := 0 |} in
  ∃ keys',
    db (run (upsert_repos (W:=Sample.world) 5) s).2 !! "repo" = Some keys'
    ∧ {["old/one"]} ⊆ keys'.
Proof.
  cbv zeta.
  apply (checkpoints_only_grow (W:=Sample.world) 5
           {| db := {["repo" := {["old/one"]}]}; calls := []; searches := 0 |}
           "repo" {["old/one"]}).
  reflexivity.
Defined.

(** ** Deletion and refresh over the whole catalog *)

(** C4 (fails on the code). Workflow B is to delete every raw item whose
    registry record has fewer than 100 stars exactly once. The raw item
    [cy:old] of the sample catalog of a single page has 50 stars in the
    registry; the per-item step deletes it once, but a run of
    [upgrade_items] never applies the step to it, the page being the one
    that comes with the empty cursor, and ends without a delete call. *)
Theorem last_page_item_is_not_deleted :
  let page := get_items (World:=Sample.small_world) 1000 "" in
  let item := Sample.raw "cy:old" ["c"] in
  item ∈ page.1
  ∧ page.2 = ""
  ∧ get_repo (World:=Sample.small_world) (registry_name item)
    = Returns Sample.faded
  ∧ stargazers_count Sample.faded = 50
  ∧ count (is_delete "cy:old")
      (calls (run (upgrade_item (W:=Sample.small_world) item) Sample.fresh).2)
    = 1%nat
  ∧ run (upgrade_items (W:=Sample.small_world) 3) Sample.fresh
    = (Done (), Sample.fresh)
  ∧ count (is_delete "cy:old")
      (calls (run (upgrade_items (W:=Sample.small_world) 3) Sample.fresh).2)
    = 0%nat.
Proof.
  cbv zeta. split; [simpl; set_solver|]. split; [reflexivity|].
  split; [reflexivity|]. split; [reflexivity|].
  split; [vm_compute; reflexivity|].
  assert (Hrun : run (upgrade_items (W:=Sample.small_world) 3) Sample.fresh
                 = (Done (), Sample.fresh)).
  { eapply (upgrade_items_last_page (W:=Sample.small_world)). reflexivity. }
  split; [exact Hrun|]. by rewrite Hrun.
Qed.

Section RefreshOnPage.
Context `{W : World}.




End RefreshOnPage.


